(** * Batched graph classification notebook (5_BatchGraph.ipynb)

    A shallow embedding of the notebook's own code: [collate], [reduce],
    [NodeApplyModule], [GCN], [Classifier], the training loop and the
    evaluation cell.  The notebook is glue around DGL and PyTorch, so the
    development has three layers:

    - the data the code handles (tensors as lists of rows, graphs as
      records with a mutable node-data frame) and the exceptions Python
      raises;
    - the library routines the notebook calls, gathered behind the
      interface [Backend] (DGL graph primitives) and behind section
      variables (loss, autograd, optimizer, softmax, sampling), with a
      reference model [dgl] of the DGL primitives following the library's
      documentation;
    - the notebook's functions, written line for line over that interface
      in a small monad that threads the mutated object, records every
      library call and propagates exceptions. *)

From Stdlib Require Import ZArith QArith Lia.
From stdpp Require Import base option list gmap strings.

Local Open Scope string_scope.
Local Open Scope list_scope.
Local Open Scope nat_scope.

(** ** Numbers

    Tensor entries are floating-point numbers in the notebook.  The
    development is parametric in the arithmetic: nothing proved below uses
    an algebraic law of [+], [*] or [/], so the results hold for whatever
    these operations compute. *)

Class Scalar := {
  num : Type;
  s_zero : num;
  s_add : num -> num -> num;
  s_mul : num -> num -> num;
  s_div : num -> num -> num;
  s_relu : num -> num;
  s_of_nat : nat -> num;
  s_of_Z : Z -> num;
  s_eqb : num -> num -> bool
}.

(** Exact rationals, kept in lowest terms, to run the definitions. *)
Definition Q_relu (q : Q) : Q := if Qle_bool 0 q then q else 0%Q.

#[export] Instance Q_scalar : Scalar := {|
  num := Q;
  s_zero := 0%Q;
  s_add := fun a b => Qred (Qplus a b);
  s_mul := fun a b => Qred (Qmult a b);
  s_div := fun a b => Qred (Qdiv a b);
  s_relu := Q_relu;
  s_of_nat := fun n => inject_Z (Z.of_nat n);
  s_of_Z := inject_Z;
  s_eqb := Qeq_bool
|}.

(** ** Exceptions *)

Inductive exn :=
| ValueError (msg : string)
| TypeError (msg : string)
| KeyError (key : string)
| RuntimeError (msg : string)
| DGLError (msg : string)
| ZeroDivisionError.

Definition result (A : Type) : Type := exn + A.

(** ** Calls that may raise, as they appear in the record of a run

    Library routines, and the two places where Python itself may raise:
    the unpacking [graphs, labels = ...] ([c_unpack]) and arithmetic on
    the notebook's variables ([c_arith]: [iter + 1], and the division in
    the accuracy). *)

Inductive lib_call :=
| c_unpack
| c_dgl_batch
| c_torch_tensor
| c_set_ndata (key : string)
| c_update_all
| c_apply_nodes
| c_pop_ndata (key : string)
| c_in_degrees
| c_mean_nodes (key : string)
| c_linear
| c_loss_func
| c_zero_grad
| c_backward
| c_step
| c_softmax
| c_multinomial
| c_max
| c_eq_sum
| c_arith
| c_print.

(** One entry per call: the routine, and the exception it raised if any. *)
Definition entry : Type := lib_call * option exn.

(** The entry of a call that returned. *)
Definition ok (c : lib_call) : entry := (c, None).

(** The calls of one graph-convolution layer that returns. *)
Definition layer_calls : list entry :=
  [ok (c_set_ndata "h"); ok c_update_all; ok c_apply_nodes; ok (c_pop_ndata "h")].

(** ** The monad of the notebook's code

    A computation runs on a mutable object of type [St] (the graph handed
    to a layer, or the notebook's global variables).  It leaves the object
    in a final state even when it raises: Python has no roll-back. *)

Record Run (St A : Type) := MkRun {
  final : St;
  log : list entry;
  outcome : result A
}.
Arguments MkRun {St A} _ _ _.
Arguments final {St A} _.
Arguments log {St A} _.
Arguments outcome {St A} _.

Definition M (St A : Type) : Type := St -> Run St A.

Definition ret {St A} (x : A) : M St A :=
  fun s => MkRun s [] (inr x).

Definition bind {St A B} (m : M St A) (k : A -> M St B) : M St B :=
  fun s =>
    let r := m s in
    match outcome r with
    | inl e => MkRun (final r) (log r) (inl e)
    | inr x =>
        let r' := k x (final r) in
        MkRun (final r') (log r ++ log r') (outcome r')
    end.

(** A call of a library routine [op], which may mutate the object. *)
Definition call {St A} (c : lib_call) (op : St -> St * result A) : M St A :=
  fun s =>
    let '(s', o) := op s in
    MkRun s' [(c, match o with inl e => Some e | inr _ => None end)] o.

(** A call of a routine that only computes. *)
Definition call_pure {St A} (c : lib_call) (o : result A) : M St A :=
  call c (fun s => (s, o)).

Definition get {St} : M St St := fun s => MkRun s [] (inr s).
Definition modify {St} (f : St -> St) : M St unit := fun s => MkRun (f s) [] (inr tt).

Declare Scope monad_scope.
Delimit Scope monad_scope with monad.
Notation "x <- m ;; k" := (bind m (fun x => k))
  (at level 100, m at next level, right associativity) : monad_scope.
Notation "m ;;; k" := (bind m (fun _ => k))
  (at level 100, right associativity) : monad_scope.
Local Open Scope monad_scope.

(** Python's [for x in xs: body]. *)
Fixpoint for_each {St A} (xs : list A) (body : A -> M St unit) : M St unit :=
  match xs with
  | [] => ret tt
  | x :: xs' => body x ;;; for_each xs' body
  end.

(** Running a computation on another object [g] from inside a computation
    on [St]; the object as the callee left it is handed back. *)
Definition on_object {St G A} (g : G) (m : M G A) : M St (G * A) :=
  fun s =>
    let r := m g in
    MkRun s (log r)
      (match outcome r with inl e => inl e | inr x => inr (final r, x) end).

(** ** Exceptions in the record of a run

    [quiet l]: no call of [l] raised.  [propagates r]: a run that raises
    [e] stopped at the call that raised [e], and a run that returns saw no
    exception at all. *)

Definition quiet (l : list entry) : Prop := Forall (fun en => snd en = None) l.

Definition propagates {St A} (r : Run St A) : Prop :=
  match outcome r with
  | inl e => exists pre c, log r = (pre ++ [(c, Some e)])%list /\ quiet pre
  | inr _ => quiet (log r)
  end.

(** The same, as seen by the caller: an exception raised by any call is
    the outcome of the run and the last thing the run did; and every
    exception that comes out was raised by a call. *)
Definition exception_transparent {St A} (r : Run St A) : Prop :=
  (forall c e, (c, Some e) ∈ log r ->
     outcome r = inl e /\ last (log r) = Some (c, Some e)) /\
  (forall e, outcome r = inl e -> exists c, last (log r) = Some (c, Some e)).

(** ** Tensors and the PyTorch routines the notebook uses

    A 2-D tensor is the list of its rows; a 3-D tensor a list of 2-D ones.
    PyTorch tensors are rectangular; the lists here need not be, and the
    routines below do what PyTorch does on the rectangular ones. *)

Abbreviation Tensor := (list (list num)) (only parsing).

Section Torch.
Context `{Scalar}.

(** [F.relu] *)
Definition F_relu (t : Tensor) : Tensor := map (map s_relu) t.

Definition sum_rows (rows : list (list num)) : list num :=
  match rows with
  | [] => []
  | r :: rs => fold_left (zip_with s_add) rs r
  end.

(** Mean of a non-empty stack of rows, column by column. *)
Definition mean_rows (rows : list (list num)) : list num :=
  map (fun s => s_div s (s_of_nat (length rows))) (sum_rows rows).

(** [torch.mean(t, 1)] of a 3-D tensor: one mean row per first index. *)
Definition torch_mean_dim1 (t : list Tensor) : Tensor := map mean_rows t.

(** [nn.Linear]: its sizes and parameters. *)
Record Linear := MkLinear {
  in_features : nat;
  out_features : nat;
  weight : list (list num);
  bias : list num
}.

Definition dot (x w : list num) : num :=
  fold_left s_add (zip_with s_mul x w) s_zero.

(** [self.linear(x)]: [x W^T + b] row by row; PyTorch rejects rows whose
    width is not [in_features]. *)
Definition Linear_forward (l : Linear) (x : Tensor) : result Tensor :=
  if forallb (fun r => length r =? in_features l) x
  then inr (map (fun r => zip_with s_add (map (dot r) (weight l)) (bias l)) x)
  else inl (RuntimeError "size mismatch").

(** [torch.tensor(labels)] on a list of Python integers: an int64 tensor. *)
Definition torch_tensor (labels : list Z) : result (list Z) :=
  if forallb (fun z => (- 2 ^ 63 <=? z)%Z && (z <? 2 ^ 63)%Z) labels
  then inr labels
  else inl (RuntimeError "Overflow when unpacking long").

(** A row of zeros of the same width. *)
Definition zero_like (r : list num) : list num := map (fun _ => s_zero) r.

(** [d.view(-1, 1).float()] on the integer tensor of degrees. *)
Definition view_col_float (d : list nat) : Tensor :=
  map (fun k => [s_of_nat k]) d.

(** ** Graphs

    Nodes are numbered from 0; an edge is a pair (source, destination);
    [ndata] is the frame of node features, one row per node in each
    column; [batch_num_nodes] lists the sizes of the graphs of a batch,
    in order (a graph on its own is a batch of one). *)

Record DGLGraph := MkGraph {
  num_nodes : nat;
  edges : list (nat * nat);
  ndata : gmap string Tensor;
  batch_num_nodes : list nat
}.

Definition with_ndata (g : DGLGraph) (nd : gmap string Tensor) : DGLGraph :=
  MkGraph (num_nodes g) (edges g) nd (batch_num_nodes g).

(** The batch of nodes a user-defined function receives: [nodes.data]
    and [nodes.mailbox]. *)
Record NodeBatch := MkBatch {
  nb_data : gmap string Tensor;
  nb_mailbox : gmap string (list Tensor)
}.

(** Built-in message functions: [fn.copy_src(src, out)]. *)
Inductive MessageFn := copy_src (src out : string).

Definition UDF : Type := NodeBatch -> result (gmap string Tensor).

(** ** The DGL primitives the notebook calls

    Each may raise, and each acts on the graph object in place. *)
Class Backend := {
  dgl_batch : list DGLGraph -> result DGLGraph;
  set_ndata : string -> Tensor -> DGLGraph -> DGLGraph * result unit;
  pop_ndata : string -> DGLGraph -> DGLGraph * result Tensor;
  update_all : MessageFn -> UDF -> DGLGraph -> DGLGraph * result unit;
  apply_nodes : UDF -> DGLGraph -> DGLGraph * result unit;
  in_degrees : DGLGraph -> DGLGraph * result (list nat);
  mean_nodes : string -> DGLGraph -> DGLGraph * result Tensor
}.

End Torch.

(** ** The notebook's functions: batching and the model *)

Section Notebook.
Context `{Scalar} `{!Backend}.

Definition sample : Type := DGLGraph * Z.

(** [graphs, labels = map(list, zip( *samples))]: the two lists, or the
    failure of the unpacking when [zip] yields nothing. *)
Definition unzip_samples (samples : list sample)
  : result (list DGLGraph * list Z) :=
  match samples with
  | [] => inl (ValueError "not enough values to unpack (expected 2, got 0)")
  | _ :: _ => inr (map fst samples, map snd samples)
  end.

Definition collate {St} (samples : list sample) : M St (DGLGraph * list Z) :=
  gl <- call_pure c_unpack (unzip_samples samples) ;;
  let '(graphs, labels) := gl in
  batched_graph <- call_pure c_dgl_batch (dgl_batch graphs) ;;
  t <- call_pure c_torch_tensor (torch_tensor labels) ;;
  ret (batched_graph, t).

(** Sends a message of node feature h. *)
Definition msg : MessageFn := copy_src "h" "m".

(** Take an average over all neighbor node features hu and use it to
    overwrite the original node feature. *)
Definition reduce : UDF := fun nodes =>
  match nb_mailbox nodes !! "m" with
  | None => inl (KeyError "m")
  | Some m =>
      let accum := torch_mean_dim1 m in
      inr {[ "h" := accum ]}
  end.

(** Update the node feature hv with ReLU(Whv+b). *)
Record NodeApplyModule := MkNodeApply {
  linear : Linear;
  activation : Tensor -> Tensor
}.

Definition NodeApplyModule_forward (self : NodeApplyModule) : UDF := fun node =>
  match nb_data node !! "h" with
  | None => inl (KeyError "h")
  | Some x =>
      match Linear_forward (linear self) x with
      | inl e => inl e
      | inr h =>
          let h := activation self h in
          inr {[ "h" := h ]}
      end
  end.

Record GCN := MkGCN { apply_mod : NodeApplyModule }.

(** [GCN(in_feats, out_feats, activation)], given the initial values
    [nn.Linear] draws for its weight and bias. *)
Definition GCN_init (in_feats out_feats : nat) (act : Tensor -> Tensor)
    (w : list (list num)) (b : list num) : GCN :=
  MkGCN (MkNodeApply (MkLinear in_feats out_feats w b) act).

Definition GCN_forward (self : GCN) (feature : Tensor) : M DGLGraph Tensor :=
  (* Initialize the node features with h. *)
  call (c_set_ndata "h") (set_ndata "h" feature) ;;;
  call c_update_all (update_all msg reduce) ;;;
  call c_apply_nodes (apply_nodes (NodeApplyModule_forward (apply_mod self))) ;;;
  call (c_pop_ndata "h") (pop_ndata "h").

Record Classifier := MkClassifier {
  layers : list GCN;
  classify : Linear
}.

(** [Classifier(in_dim, hidden_dim, n_classes)], given the initial
    parameters of its three linear maps. *)
Definition Classifier_init (in_dim hidden_dim n_classes : nat)
    (w1 : list (list num)) (b1 : list num)
    (w2 : list (list num)) (b2 : list num)
    (w3 : list (list num)) (b3 : list num) : Classifier :=
  MkClassifier
    [ GCN_init in_dim hidden_dim F_relu w1 b1;
      GCN_init hidden_dim hidden_dim F_relu w2 b2 ]
    (MkLinear hidden_dim n_classes w3 b3).

(** [for conv in self.layers: h = conv(g, h)] *)
Fixpoint for_layers (convs : list GCN) (h : Tensor) : M DGLGraph Tensor :=
  match convs with
  | [] => ret h
  | conv :: rest => h' <- GCN_forward conv h ;; for_layers rest h'
  end.

Definition Classifier_forward (self : Classifier) : M DGLGraph Tensor :=
  (* For undirected graphs, in_degree is the same as out_degree. *)
  d <- call c_in_degrees in_degrees ;;
  let h := view_col_float d in
  h <- for_layers (layers self) h ;;
  call (c_set_ndata "h") (set_ndata "h" h) ;;;
  hg <- call (c_mean_nodes "h") (mean_nodes "h") ;;
  call_pure c_linear (Linear_forward (classify self) hg).

End Notebook.

(** ** A reference model of the DGL primitives

    DGL is not part of the notebook.  The model below follows its
    documentation: node data is a frame of columns with one row per node;
    [update_all] with a user-defined reduce function groups the nodes by
    in-degree, calls the function once per group on the stacked mailboxes
    and writes the rows it returns; it skips the function for the nodes
    that received no message and fills their rows with the column
    initializer's zeros; when no node received a message nothing is
    written; [apply_nodes] calls its function once on all nodes; [batch]
    forms the disjoint union and concatenates the columns, and rejects
    graphs whose nodes carry different attributes. *)

Section DGLModel.
Context `{Scalar}.

(** Sources of the edges that enter [v], in edge order. *)
Definition in_sources (g : DGLGraph) (v : nat) : list nat :=
  map fst (filter (fun e => snd e = v) (edges g)).

Definition in_degree (g : DGLGraph) (v : nat) : nat :=
  length (in_sources g v).

Definition rows_of (col : Tensor) (ids : list nat) : Tensor :=
  map (fun u => col !!! u) ids.

(** Nodes grouped by in-degree, from degree 1 up; empty groups dropped. *)
Definition degree_buckets (g : DGLGraph) : list (list nat) :=
  filter (fun b => b <> [])
    (map (fun d => filter (fun v => in_degree g v = d) (seq 0 (num_nodes g)))
         (seq 1 (length (edges g)))).

Definition scatter (ids : list nat) (rows : Tensor) (col : Tensor) : Tensor :=
  fold_left (fun c vr => <[fst vr := snd vr]> c) (zip ids rows) col.

Definition zero_column (n : nat) (like : Tensor) : Tensor :=
  replicate n (zero_like (hd [] like)).

(** Rows returned for the nodes [ids] written into the frame; a column
    that did not exist starts from zeros. *)
Definition write_rows (n : nat) (ids : list nat)
    (fr nd : gmap string Tensor) : gmap string Tensor :=
  merge (fun new old =>
           match new with
           | Some t => Some (scatter ids t (default (zero_column n t) old))
           | None => old
           end) fr nd.

Definition rows_ok (k : nat) (fr : gmap string Tensor) : bool :=
  bool_decide (map_Forall (fun _ t => length t = k) fr).

(** The reduce function on one group of nodes. *)
Definition reduce_bucket (g : DGLGraph) (out : string) (col : Tensor)
    (rfunc : UDF) (ids : list nat) : result (list nat * gmap string Tensor) :=
  let batch :=
    MkBatch ((fun c => rows_of c ids) <$> ndata g)
            {[ out := map (fun v => rows_of col (in_sources g v)) ids ]} in
  match rfunc batch with
  | inl e => inl e
  | inr fr =>
      if rows_ok (length ids) fr then inr (ids, fr)
      else inl (DGLError "reduce: wrong number of rows")
  end.

Fixpoint reduce_all (g : DGLGraph) (out : string) (col : Tensor)
    (rfunc : UDF) (bs : list (list nat))
  : result (list (list nat * gmap string Tensor)) :=
  match bs with
  | [] => inr []
  | b :: bs' =>
      match reduce_bucket g out col rfunc b with
      | inl e => inl e
      | inr r =>
          match reduce_all g out col rfunc bs' with
          | inl e => inl e
          | inr rs => inr (r :: rs)
          end
      end
  end.

(** The nodes that receive no message. *)
Definition unreached (g : DGLGraph) : list nat :=
  filter (fun v => in_degree g v = 0) (seq 0 (num_nodes g)).

(** Their rows, for the columns [fr] that the reduce function returned:
    zeros, shaped like the rows of the column (like the returned rows
    when the column is new). *)
Definition unreached_frame (g : DGLGraph) (fr : gmap string Tensor)
  : gmap string Tensor :=
  merge (fun new old =>
           match new with
           | Some t =>
               Some (match old with
                     | Some col => map (fun v => zero_like (col !!! v)) (unreached g)
                     | None => replicate (length (unreached g)) (zero_like (hd [] t))
                     end)
           | None => None
           end) fr (ndata g).

Definition with_unreached (g : DGLGraph) (rs : list (list nat * gmap string Tensor))
  : list (list nat * gmap string Tensor) :=
  match rs with
  | [] => []
  | r0 :: _ => (unreached g, unreached_frame g (snd r0)) :: rs
  end.

Definition m_update_all (mfunc : MessageFn) (rfunc : UDF) (g : DGLGraph)
  : DGLGraph * result unit :=
  match edges g with
  | [] => (g, inr tt)
  | _ :: _ =>
      let '(copy_src src out) := mfunc in
      match ndata g !! src with
      | None => (g, inl (KeyError src))
      | Some col =>
          match reduce_all g out col rfunc (degree_buckets g) with
          | inl e => (g, inl e)
          | inr rs =>
              (with_ndata g
                 (fold_left (fun nd r => write_rows (num_nodes g) (fst r) (snd r) nd)
                            (with_unreached g rs) (ndata g)),
               inr tt)
          end
      end
  end.

Definition m_apply_nodes (func : UDF) (g : DGLGraph) : DGLGraph * result unit :=
  match func (MkBatch (ndata g) ∅) with
  | inl e => (g, inl e)
  | inr fr =>
      if rows_ok (num_nodes g) fr
      then (with_ndata g (fr ∪ ndata g), inr tt)
      else (g, inl (DGLError "apply_nodes: wrong number of rows"))
  end.

Definition m_set_ndata (key : string) (t : Tensor) (g : DGLGraph)
  : DGLGraph * result unit :=
  if length t =? num_nodes g
  then (with_ndata g (<[key := t]> (ndata g)), inr tt)
  else (g, inl (DGLError "Expect number of features to match number of nodes")).

Definition m_pop_ndata (key : string) (g : DGLGraph) : DGLGraph * result Tensor :=
  match ndata g !! key with
  | Some t => (with_ndata g (delete key (ndata g)), inr t)
  | None => (g, inl (KeyError key))
  end.

Definition m_in_degrees (g : DGLGraph) : DGLGraph * result (list nat) :=
  (g, inr (map (in_degree g) (seq 0 (num_nodes g)))).

(** The rows of a column split graph by graph. *)
Fixpoint segments (sizes : list nat) (t : Tensor) : list Tensor :=
  match sizes with
  | [] => []
  | n :: ns => take n t :: segments ns (drop n t)
  end.

Definition m_mean_nodes (key : string) (g : DGLGraph) : DGLGraph * result Tensor :=
  match ndata g !! key with
  | Some t => (g, inr (map mean_rows (segments (batch_num_nodes g) t)))
  | None => (g, inl (KeyError key))
  end.

Definition shift_edges (off : nat) (es : list (nat * nat)) : list (nat * nat) :=
  map (fun e => (off + fst e, off + snd e)) es.

(** Disjoint union of the graphs, left to right. *)
Fixpoint union_graphs (off : nat) (gs : list DGLGraph) : list (nat * nat) :=
  match gs with
  | [] => []
  | g :: gs' => (shift_edges off (edges g) ++ union_graphs (off + num_nodes g) gs')%list
  end.

Definition cat_frames (gs : list DGLGraph) : gmap string Tensor :=
  foldr (fun g acc =>
           if 0 <? num_nodes g
           then union_with (fun a b => Some (a ++ b)%list) (ndata g) acc
           else acc) ∅ gs.

Definition same_attrs (gs : list DGLGraph) : bool :=
  match filter (fun g => 0 < num_nodes g) gs with
  | [] => true
  | g0 :: rest => forallb (fun g => bool_decide (dom (ndata g) = dom (ndata g0))) rest
  end.

Definition m_batch (gs : list DGLGraph) : result DGLGraph :=
  match gs with
  | [] => inl (ValueError "batch: empty graph list")
  | _ :: _ =>
      if same_attrs gs
      then inr (MkGraph (list_sum (map num_nodes gs)) (union_graphs 0 gs)
                        (cat_frames gs) (map num_nodes gs))
      else inl (ValueError "Expect graphs to have the same node attributes")
  end.

(** Writing the rows of the groups one after the other. *)
Definition scatter_groups (f : nat -> list num) (bs : list (list nat)) (col : Tensor)
  : Tensor :=
  fold_left (fun c ids => scatter ids (map f ids) c) bs col.

(** The mean of the features of the in-neighbours of [v]. *)
Definition node_mean (g : DGLGraph) (col : Tensor) (v : nat) : list num :=
  mean_rows (rows_of col (in_sources g v)).

(** The row [update_all(msg, reduce)] writes for node [v]. *)
Definition node_row (g : DGLGraph) (col : Tensor) (v : nat) : list num :=
  if decide (in_degree g v = 0) then zero_like (col !!! v) else node_mean g col v.

#[export] Instance dgl : Backend := {|
  dgl_batch := m_batch;
  set_ndata := m_set_ndata;
  pop_ndata := m_pop_ndata;
  update_all := m_update_all;
  apply_nodes := m_apply_nodes;
  in_degrees := m_in_degrees;
  mean_nodes := m_mean_nodes
|}.

End DGLModel.

(** ** What the layer computes, in the words of its description

    A message send copies the feature of each edge's source node into a
    message for the edge's destination; the reduce step replaces the
    feature of every node that received messages by their mean; the apply
    step maps [x] to [activation (x W^T + b)].  A node that received no
    message has no mean: DGL leaves zeros there, or the feature passed in
    when no node at all received a message. *)

Section LayerSpec.
Context `{Scalar}.

(** Step 1: one message per edge, addressed to the destination. *)
Definition send_messages (g : DGLGraph) (feature : Tensor)
  : list (nat * list num) :=
  map (fun e => (snd e, feature !!! fst e)) (edges g).

Definition received (msgs : list (nat * list num)) (v : nat) : list (list num) :=
  map snd (filter (fun m => fst m = v) msgs).

Definition any_received (g : DGLGraph) (feature : Tensor) : bool :=
  existsb (fun v => match received (send_messages g feature) v with
                    | [] => false
                    | _ :: _ => true
                    end) (seq 0 (num_nodes g)).

(** Step 2: the mean of the messages received, node by node. *)
Definition mean_of_received (g : DGLGraph) (feature : Tensor) : Tensor :=
  imap (fun v row =>
          match received (send_messages g feature) v with
          | [] => if any_received g feature then zero_like row else row
          | m :: ms => mean_rows (m :: ms)
          end) feature.

(** Step 3: [x W^T + b] on one row. *)
Definition affine (l : Linear) (r : list num) : list num :=
  zip_with s_add (map (dot r) (weight l)) (bias l).

Definition gcn_layer_spec (self : GCN) (g : DGLGraph) (feature : Tensor) : Tensor :=
  activation (apply_mod self)
    (map (affine (linear (apply_mod self))) (mean_of_received g feature)).

(** Readout: the mean of the node features of each graph of the batch. *)
Definition readout_spec (g : DGLGraph) (h : Tensor) : Tensor :=
  map mean_rows (segments (batch_num_nodes g) h).

(** Initial features: the in-degree of each node, as a column. *)
Definition degree_column (g : DGLGraph) : Tensor :=
  map (fun v => [s_of_nat (length (filter (fun e => snd e = v) (edges g)))])
      (seq 0 (num_nodes g)).

(** The state in which a failing layer leaves the graph: ['h'] holds the
    aggregated features. *)
Definition mid_layer (g : DGLGraph) (feature : Tensor) : DGLGraph :=
  with_ndata g (<[ "h" := mean_of_received g feature ]> (ndata g)).

End LayerSpec.

(** ** The notebook's cells: training and evaluation *)

Section Cells.
Context `{Scalar} `{!Backend}.

(** What autograd and the optimizer keep: the gradients stored with the
    parameters, and Adam's running moments. *)
Context {Grads OptState : Type}.

(** [nn.CrossEntropyLoss()] applied to logits and labels. *)
Variable loss_func : Tensor -> list Z -> result num.
(** [optimizer.zero_grad()] *)
Variable zero_grad : Grads -> Grads.
(** [loss.backward()]: the gradients of the loss of this model on this
    batch, accumulated into the stored ones. *)
Variable backward : Classifier -> DGLGraph -> list Z -> Grads -> result Grads.
(** [optimizer.step()] *)
Variable adam_step : OptState -> Classifier -> Grads -> result (OptState * Classifier).
(** [torch.softmax(x, 1)] *)
Variable softmax : Tensor -> result Tensor.
(** [torch.multinomial(p, 1)]: the class drawn for each row in this run. *)
Variable multinomial : Tensor -> result (list Z).
(** [torch.max(p, 1)[1]]: the index of the largest entry of each row. *)
Variable max_index : Tensor -> result (list Z).

(** The training set, and the order the loader's sampler draws it in for
    each epoch ([shuffle=True]). *)
Variable trainset : list sample.
Variable shuffle : nat -> list sample -> list sample.

Inductive line :=
| EpochLine (epoch : nat) (loss : num)
| SampledAccuracy (percent : num)
| ArgmaxAccuracy (percent : num).

(** The notebook's global variables that the cells assign. *)
Record Env := MkEnv {
  model : Classifier;
  grads : Grads;
  optimizer : OptState;
  epoch_loss : num;
  iter : option nat;
  epoch_losses : list num;
  stdout : list line
}.

Definition set_model (m : Classifier) (s : Env) : Env :=
  MkEnv m (grads s) (optimizer s) (epoch_loss s) (iter s) (epoch_losses s) (stdout s).
Definition set_grads (gr : Grads) (s : Env) : Env :=
  MkEnv (model s) gr (optimizer s) (epoch_loss s) (iter s) (epoch_losses s) (stdout s).
Definition set_optimizer (o : OptState) (s : Env) : Env :=
  MkEnv (model s) (grads s) o (epoch_loss s) (iter s) (epoch_losses s) (stdout s).
Definition set_epoch_loss (x : num) (s : Env) : Env :=
  MkEnv (model s) (grads s) (optimizer s) x (iter s) (epoch_losses s) (stdout s).
Definition set_iter (i : option nat) (s : Env) : Env :=
  MkEnv (model s) (grads s) (optimizer s) (epoch_loss s) i (epoch_losses s) (stdout s).
Definition set_epoch_losses (l : list num) (s : Env) : Env :=
  MkEnv (model s) (grads s) (optimizer s) (epoch_loss s) (iter s) l (stdout s).
Definition print (ln : line) (s : Env) : Env :=
  MkEnv (model s) (grads s) (optimizer s) (epoch_loss s) (iter s) (epoch_losses s)
        (stdout s ++ [ln]).

(** [DataLoader(trainset, batch_size, shuffle=True, collate_fn=collate)]:
    the sampler's order cut into groups of [batch_size]. *)
Fixpoint chunks (fuel n : nat) (l : list sample) : list (list sample) :=
  match fuel with
  | 0 => []
  | S fuel' =>
      match l with
      | [] => []
      | _ :: _ => take n l :: chunks fuel' n (drop n l)
      end
  end.

Definition batch_size : nat := 32.

Definition data_loader (epoch : nat) : list (list sample) :=
  let order := shuffle epoch trainset in
  chunks (length order) batch_size order.

(** [for i, x in enumerate(xs): body] *)
Fixpoint for_enumerate {St A B} (xs : list A) (i : nat)
    (body : nat -> A -> M St B) : M St unit :=
  match xs with
  | [] => ret tt
  | x :: xs' => body i x ;;; for_enumerate xs' (S i) body
  end.

(** Lines 247-251: one gradient-descent step; yields [loss.detach().item()]. *)
Definition train_step (bg : DGLGraph) (label : list Z) : M Env num :=
  s <- get ;;
  r <- on_object bg (Classifier_forward (model s)) ;;
  let prediction := snd r in
  loss <- call_pure c_loss_func (loss_func prediction label) ;;
  call c_zero_grad (fun s => (set_grads (zero_grad (grads s)) s, inr tt)) ;;;
  call c_backward (fun s =>
    match backward (model s) bg label (grads s) with
    | inl e => (s, inl e)
    | inr gr => (set_grads gr s, inr tt)
    end) ;;;
  call c_step (fun s =>
    match adam_step (optimizer s) (model s) (grads s) with
    | inl e => (s, inl e)
    | inr om => (set_model (snd om) (set_optimizer (fst om) s), inr tt)
    end) ;;;
  ret loss.

(** The body of the inner loop: the loader collates the next group, then
    lines 247-252.  It yields the loss value it added to [epoch_loss]. *)
Definition loop_body (it : nat) (group : list sample) : M Env num :=
  b <- collate group ;;
  modify (set_iter (Some it)) ;;;
  loss <- train_step (fst b) (snd b) ;;
  modify (fun s => set_epoch_loss (s_add (epoch_loss s) loss) s) ;;;
  ret loss.

(** [iter + 1]; [iter] is Python's built-in function until the loop has
    assigned it. *)
Definition iter_plus_1 (s : Env) : result nat :=
  match iter s with
  | Some i => inr (i + 1)
  | None => inl (TypeError "unsupported operand type(s) for +")
  end.

(** Lines 245-255: the body of the outer loop. *)
Definition train_epoch (epoch : nat) : M Env unit :=
  modify (set_epoch_loss s_zero) ;;;
  for_enumerate (data_loader epoch) 0 loop_body ;;;
  s <- get ;;
  n <- call_pure c_arith (iter_plus_1 s) ;;
  modify (fun s => set_epoch_loss (s_div (epoch_loss s) (s_of_nat n)) s) ;;;
  call c_print (fun s => (print (EpochLine epoch (epoch_loss s)) s, inr tt)) ;;;
  modify (fun s => set_epoch_losses (epoch_losses s ++ [epoch_loss s]) s).

(** Lines 243-255, for [range(n_epochs)]; the notebook runs 80 epochs. *)
Definition training (n_epochs : nat) : M Env unit :=
  modify (set_epoch_losses []) ;;;
  for_each (seq 0 n_epochs) train_epoch.

Definition n_epochs : nat := 80.

(** [a == b] on two columns, with PyTorch's broadcasting of a column of
    one row, then [.sum().item()]. *)
Definition eq_sum (a b : list num) : result nat :=
  if length a =? length b
  then inr (length (filter (fun p => s_eqb (fst p) (snd p) = true) (zip a b)))
  else if length b =? 1
  then inr (length (filter (fun x => s_eqb x (hd s_zero b) = true) a))
  else if length a =? 1
  then inr (length (filter (fun y => s_eqb (hd s_zero a) y = true) b))
  else inl (RuntimeError "The size of tensor a must match the size of tensor b").

(** [count / len(test_Y) * 100] *)
Definition percentage (count len : nat) : result num :=
  if len =? 0 then inl ZeroDivisionError
  else inr (s_mul (s_div (s_of_nat count) (s_of_nat len)) (s_of_nat 100)).

(** Lines 282-293. *)
Definition evaluation (testset : list sample) : M Env unit :=
  xy <- call_pure c_unpack (unzip_samples testset) ;;
  let '(test_X, test_Y) := xy in
  test_bg <- call_pure c_dgl_batch (dgl_batch test_X) ;;
  t <- call_pure c_torch_tensor (torch_tensor test_Y) ;;
  let test_Y := map s_of_Z t in
  s <- get ;;
  r <- on_object test_bg (Classifier_forward (model s)) ;;
  probs_Y <- call_pure c_softmax (softmax (snd r)) ;;
  sampled_Y <- call_pure c_multinomial (multinomial probs_Y) ;;
  argmax_Y <- call_pure c_max (max_index probs_Y) ;;
  k1 <- call_pure c_eq_sum (eq_sum test_Y (map s_of_Z sampled_Y)) ;;
  a1 <- call_pure c_arith (percentage k1 (length test_Y)) ;;
  call c_print (fun s => (print (SampledAccuracy a1) s, inr tt)) ;;;
  k2 <- call_pure c_eq_sum (eq_sum test_Y (map s_of_Z argmax_Y)) ;;
  a2 <- call_pure c_arith (percentage k2 (length test_Y)) ;;
  call c_print (fun s => (print (ArgmaxAccuracy a2) s, inr tt)).

(** The loss values of the steps of one epoch, in order, as the loop
    meets them from state [s]. *)
Fixpoint step_losses (groups : list (list sample)) (it : nat) (s : Env) : list num :=
  match groups with
  | [] => []
  | group :: rest =>
      let r := loop_body it group s in
      match outcome r with
      | inr loss => loss :: step_losses rest (S it) (final r)
      | inl _ => []
      end
  end.

(** The mean the loop reports for one epoch entered in state [s]: the
    sum of the loss values of its steps over their number. *)
Definition reported_loss (groups : list (list sample)) (s : Env) : num :=
  let losses := step_losses groups 0 (set_epoch_loss s_zero s) in
  s_div (fold_left s_add losses s_zero) (s_of_nat (length losses)).

(** The lines the epochs print, one after the other, from state [s]. *)
Fixpoint epoch_reports (epochs : list nat) (s : Env) : list line :=
  match epochs with
  | [] => []
  | e :: rest =>
      EpochLine e (reported_loss (data_loader e) s)
      :: epoch_reports rest (final (train_epoch e s))
  end.

(** The calls of one step of the inner loop that returns: the loader's
    [collate], the forward pass of some model on some batched graph, then
    loss, [zero_grad], [backward] and [step]. *)
Definition step_calls (fwd : list entry) : list entry :=
  fwd ++ [ok c_loss_func; ok c_zero_grad; ok c_backward; ok c_step].

Definition collate_calls : list entry :=
  [ok c_unpack; ok c_dgl_batch; ok c_torch_tensor].

Definition minibatch_record (l : list entry) : Prop :=
  exists (m : Classifier) (bg : DGLGraph) (pred : Tensor),
    outcome (Classifier_forward m bg) = inr pred /\
    l = collate_calls ++ step_calls (log (Classifier_forward m bg)).

(** The calls of one epoch that returns, given those of its steps. *)
Definition epoch_calls (steps : list (list entry)) : list entry :=
  concat steps ++ [ok c_arith; ok c_print].

(** The number of test graphs whose predicted class is the true label,
    and a fraction as a percentage. *)
Definition hits (labels preds : list Z) : nat :=
  length (filter (fun p => fst p = snd p) (zip labels preds)).

Definition percent_of (count total : nat) : num :=
  s_mul (s_div (s_of_nat count) (s_of_nat total)) (s_of_nat 100).

(** The state a step that returns leaves behind. *)
Definition after_step (gr : Grads) (om : OptState * Classifier) (s : Env) : Env :=
  set_model (snd om) (set_optimizer (fst om) (set_grads gr s)).

End Cells.

(** ** Small inputs over the rationals

    Graphs carry a self-loop on every node, as the graphs of
    [MiniGCDataset] do. *)

Definition ex_path : DGLGraph :=
  MkGraph 3 [(0, 0); (1, 1); (2, 2); (0, 1); (1, 0); (1, 2); (2, 1)] ∅ [3].

Definition ex_pair : DGLGraph :=
  MkGraph 2 [(0, 0); (1, 1); (0, 1); (1, 0)] ∅ [2].

(** The batch of [ex_path] and [ex_pair]. *)
Definition ex_batch : DGLGraph :=
  MkGraph 5
    [(0, 0); (1, 1); (2, 2); (0, 1); (1, 0); (1, 2); (2, 1);
     (3, 3); (4, 4); (3, 4); (4, 3)] ∅ [3; 2].

(** A graph that already stores features under ['h'] and ['x']. *)
Definition ex_tagged : DGLGraph :=
  MkGraph 2 [(0, 0); (1, 1); (0, 1); (1, 0)]
    (<[ "h" := [[5%Q]; [7%Q]] ]> (<[ "x" := [[1%Q]; [2%Q]] ]> ∅)) [2].

Definition ex_feature : Tensor := [[1%Q]; [2%Q]; [4%Q]].

Definition ex_layer : GCN :=
  GCN_init 1 2 F_relu [[1%Q]; [(-1 # 1)%Q]] [0%Q; 1%Q].

Definition ex_model : Classifier :=
  Classifier_init 1 2 2
    [[1%Q]; [(-1 # 1)%Q]] [0%Q; 1%Q]
    [[1%Q; 2%Q]; [0%Q; 1%Q]] [0%Q; 0%Q]
    [[1%Q; 0%Q]; [1%Q; 1%Q]] [1%Q; 0%Q].



Definition ex_samples : list sample := [(ex_path, 1%Z); (ex_pair, 0%Z)].


(** Stand-ins for the numeric routines of PyTorch, to run the cells on
    small inputs: the sum of the logits of the labelled classes for the
    loss, a count of backward passes for the gradients, an optimizer that
    counts what it is given and lowers the biases of [classify], the identity
    for softmax, class 0 for every draw, and the first largest entry for
    the maximum. *)
Definition ex_loss (pred : Tensor) (labels : list Z) : result Q :=
  inr (fold_left s_add
         (zip_with (fun row l => default 0%Q (row !! Z.to_nat l)) pred labels) 0%Q).

Definition ex_zero_grad (_ : nat) : nat := 0.

Definition ex_backward (_ : Classifier) (_ : DGLGraph) (_ : list Z) (gr : nat)
  : result nat := inr (S gr).

Definition ex_adam_step (o : nat) (m : Classifier) (gr : nat)
  : result (nat * Classifier) :=
  let c := classify m in
  inr (o + gr,
       MkClassifier (layers m)
         (MkLinear (in_features c) (out_features c) (weight c)
                   (map (fun b => s_add b (-1 # 10)%Q) (bias c)))).

Definition ex_softmax (t : Tensor) : result Tensor := inr t.

Definition ex_multinomial (t : Tensor) : result (list Z) :=
  inr (map (fun _ => 0%Z) t).

Fixpoint argmax_from (best : Q) (bi i : nat) (row : list Q) : nat :=
  match row with
  | [] => bi
  | x :: r =>
      if Qle_bool x best then argmax_from best bi (S i) r
      else argmax_from x i (S i) r
  end.

Definition ex_max_index (t : Tensor) : result (list Z) :=
  inr (map (fun row =>
              match row with
              | [] => 0%Z
              | x :: r => Z.of_nat (argmax_from x 0 1 r)
              end) t).

Definition ex_dot : DGLGraph := MkGraph 1 [(0, 0)] ∅ [1].

(** Thirty-four graphs: two mini-batches per epoch. *)
Definition ex_trainset : list sample :=
  replicate 33 (ex_dot, 0%Z) ++ [(ex_pair, 1%Z)].

Definition ex_shuffle (e : nat) (l : list sample) : list sample :=
  if Nat.even e then l else rev l.

Definition ex_env : @Env _ nat nat :=
  MkEnv ex_model 0 0 0%Q None [] [].


(** ** Well-formed inputs

    What DGL and PyTorch guarantee of the objects they build: tensors are
    rectangular, the end points of an edge are nodes of the graph, a
    linear map with [out_features] outputs has that many weight rows and
    biases, and the sizes of a batch add up to its nodes. *)

Section Shapes.
Context `{Scalar}.

Definition rectangular (w : nat) (t : Tensor) : Prop :=
  Forall (fun r => length r = w) t.

Definition wf_edges (g : DGLGraph) : Prop :=
  Forall (fun e => fst e < num_nodes g /\ snd e < num_nodes g) (edges g).

Definition wf_linear (l : Linear) : Prop :=
  length (weight l) = out_features l /\ length (bias l) = out_features l.

Definition wf_batch (g : DGLGraph) : Prop :=
  list_sum (batch_num_nodes g) = num_nodes g /\
  Forall (fun n => 0 < n) (batch_num_nodes g).

(** An activation that works entry by entry keeps the shape. *)
Definition keeps_shape (act : Tensor -> Tensor) : Prop :=
  forall t, length (act t) = length t /\
            forall w, rectangular w t -> rectangular w (act t).

(** The outcome of a layer, which depends on the graph through its
    nodes and edges only. *)
Definition layer_outcome (self : GCN) (g : DGLGraph) (feature : Tensor)
  : result Tensor :=
  if length feature =? num_nodes g then
    match Linear_forward (linear (apply_mod self)) (mean_of_received g feature) with
    | inl e => inl e
    | inr y =>
        if length (activation (apply_mod self) y) =? num_nodes g
        then inr (activation (apply_mod self) y)
        else inl (DGLError "apply_nodes: wrong number of rows")
    end
  else inl (DGLError "Expect number of features to match number of nodes").

Fixpoint layers_outcome (convs : list GCN) (g : DGLGraph) (h : Tensor)
  : result Tensor :=
  match convs with
  | [] => inr h
  | conv :: rest =>
      match layer_outcome conv g h with
      | inl e => inl e
      | inr h' => layers_outcome rest g h'
      end
  end.

(** The outcome of the classifier, likewise. *)
Definition classifier_outcome (self : Classifier) (g : DGLGraph) : result Tensor :=
  match layers_outcome (layers self) g (degree_column g) with
  | inl e => inl e
  | inr h =>
      if length h =? num_nodes g
      then Linear_forward (classify self) (readout_spec g h)
      else inl (DGLError "Expect number of features to match number of nodes")
  end.

(** Every node has an incoming edge, as in the graphs of the data set,
    which carry a self-loop on every node. *)
Definition all_reached (g : DGLGraph) : Prop :=
  Forall (fun v => in_degree g v <> 0) (seq 0 (num_nodes g)).

(** A graph on its own. *)
Definition single (g : DGLGraph) : Prop :=
  batch_num_nodes g = [num_nodes g].

(** [c] is the disjoint union of [a] and [b], the nodes of [b] renumbered
    after those of [a]. *)
Definition is_union (a b c : DGLGraph) : Prop :=
  num_nodes c = num_nodes a + num_nodes b /\
  edges c = edges a ++ shift_edges (num_nodes a) (edges b).

(** The nodes, edges and sizes of [dgl.batch(gs)]. *)
Definition batch_of (gs : list DGLGraph) : DGLGraph :=
  MkGraph (list_sum (map num_nodes gs)) (union_graphs 0 gs) ∅ (map num_nodes gs).

End Shapes.

(** ** What a run changes, and which calls it makes *)

#[export] Instance lib_call_eq_dec : EqDecision lib_call.
Proof. solve_decision. Defined.

(** In every run, returning or not, [m] takes a state to one related to it
    by [R]. *)
Definition moves {St A} (R : St -> St -> Prop) (m : M St A) : Prop :=
  forall s, R s (final (m s)).

(** Every call [m] makes is one of [P]. *)
Definition calls_within {St A} (P : lib_call -> Prop) (m : M St A) : Prop :=
  forall s, Forall (fun en => P (fst en)) (log (m s)).


(** The calls of a forward pass. *)
Definition graph_call (c : lib_call) : Prop :=
  c ∈ [c_in_degrees; c_set_ndata "h"; c_update_all; c_apply_nodes;
       c_pop_ndata "h"; c_mean_nodes "h"; c_linear].

(** The calls the evaluation cell can make. *)
Definition evaluation_call (c : lib_call) : Prop :=
  graph_call c \/
  c ∈ [c_unpack; c_dgl_batch; c_torch_tensor; c_softmax; c_multinomial;
       c_max; c_eq_sum; c_arith; c_print].



Section Frames.
Context `{Scalar} {Grads OptState : Type}.

(** Nothing changed but the output, which grew. *)
Definition only_prints (s s' : @Env _ Grads OptState) : Prop :=
  model s' = model s /\ grads s' = grads s /\ optimizer s' = optimizer s /\
  epoch_loss s' = epoch_loss s /\ iter s' = iter s /\
  epoch_losses s' = epoch_losses s /\
  stdout s `prefix_of` stdout s'.

(** Nothing was printed and no loss recorded. *)
Definition same_records (s s' : @Env _ Grads OptState) : Prop :=
  stdout s' = stdout s /\ epoch_losses s' = epoch_losses s.

End Frames.

(** ** More small inputs *)

(** Features of width 2, on the three nodes of [ex_path]. *)
Definition ex_wide_feature : Tensor := [[1%Q; 1%Q]; [2%Q; 2%Q]; [4%Q; 4%Q]].

(** Features that differ from [ex_feature] at node 2 only. *)
Definition ex_other_feature : Tensor := [[1%Q]; [2%Q]; [9%Q]].

(** A classifier built with [in_dim = 2]. *)
Definition ex_model_in2 : Classifier :=
  Classifier_init 2 2 2
    [[1%Q; 1%Q]; [(-1 # 1)%Q; 0%Q]] [0%Q; 1%Q]
    [[1%Q; 2%Q]; [0%Q; 1%Q]] [0%Q; 0%Q]
    [[1%Q; 0%Q]; [1%Q; 1%Q]] [1%Q; 0%Q].

(** * Results *)

(** ** The monad *)

Section MonadFacts.
Context {St : Type}.

Lemma run_bind_ok {A B} (m : M St A) (k : A -> M St B) s x :
  outcome (m s) = inr x ->
  bind m k s =
    MkRun (final (k x (final (m s)))) (log (m s) ++ log (k x (final (m s))))
          (outcome (k x (final (m s)))).
Proof. intros E. unfold bind. by rewrite E. Qed.

Lemma run_bind_raise {A B} (m : M St A) (k : A -> M St B) s e :
  outcome (m s) = inl e ->
  bind m k s = MkRun (final (m s)) (log (m s)) (inl e).
Proof. intros E. unfold bind. by rewrite E. Qed.

Lemma bind_ok_inv {A B} (m : M St A) (k : A -> M St B) s y :
  outcome (bind m k s) = inr y ->
  exists x,
    outcome (m s) = inr x /\
    outcome (k x (final (m s))) = inr y /\
    final (bind m k s) = final (k x (final (m s))) /\
    log (bind m k s) = log (m s) ++ log (k x (final (m s))).
Proof.
  unfold bind. destruct (outcome (m s)) as [e|x]; [done|].
  cbn [outcome final log]. intros Hk. by exists x.
Qed.

Lemma run_call {A} c (op : St -> St * result A) s :
  call c op s =
    MkRun (fst (op s))
          [(c, match snd (op s) with inl e => Some e | inr _ => None end)]
          (snd (op s)).
Proof. unfold call. by destruct (op s). Qed.

Lemma run_call_pure {A} c (o : result A) (s : St) :
  call_pure c o s =
    MkRun s [(c, match o with inl e => Some e | inr _ => None end)] o.
Proof. reflexivity. Qed.

Lemma propagates_ret {A} (x : A) (s : St) : propagates (ret x s).
Proof. apply Forall_nil_2. Qed.

Lemma propagates_get (s : St) : propagates (get s).
Proof. apply Forall_nil_2. Qed.

Lemma propagates_modify (f : St -> St) (s : St) : propagates (modify f s).
Proof. apply Forall_nil_2. Qed.

Lemma propagates_call {A} c (op : St -> St * result A) (s : St) :
  propagates (call c op s).
Proof.
  rewrite run_call. unfold propagates. cbn [outcome log].
  destruct (snd (op s)) as [e|x].
  - exists [], c. split; [done|apply Forall_nil_2].
  - apply Forall_cons; split; [done|apply Forall_nil_2].
Qed.

Lemma propagates_bind {A B} (m : M St A) (k : A -> M St B) (s : St) :
  propagates (m s) ->
  (forall x s', propagates (k x s')) ->
  propagates (bind m k s).
Proof.
  intros Hm Hk. unfold propagates in Hm.
  destruct (outcome (m s)) as [e|x] eqn:Hout.
  - rewrite (run_bind_raise _ _ _ _ Hout). unfold propagates. by cbn [outcome log].
  - rewrite (run_bind_ok _ _ _ _ Hout). unfold propagates. cbn [outcome log].
    specialize (Hk x (final (m s))). unfold propagates in Hk.
    destruct (outcome (k x (final (m s)))) as [e|y].
    + destruct Hk as (pre & c & -> & Hpre).
      exists (log (m s) ++ pre), c. split; [by rewrite app_assoc|].
      by apply Forall_app.
    + by apply Forall_app.
Qed.

Lemma propagates_on_object {G A} (g : G) (m : M G A) (s : St) :
  propagates (m g) -> propagates (on_object g m s).
Proof.
  unfold propagates, on_object. cbn [outcome log].
  by destruct (outcome (m g)).
Qed.

Lemma propagates_for_each {A} (xs : list A) (body : A -> M St unit) (s : St) :
  (forall x s', propagates (body x s')) -> propagates (for_each xs body s).
Proof.
  intros Hbody. revert s.
  induction xs as [|x xs IH]; intros s; cbn [for_each].
  - apply propagates_ret.
  - apply propagates_bind; [apply Hbody|]. intros _ s'. apply IH.
Qed.

Lemma propagates_transparent {A} (r : Run St A) :
  propagates r -> exception_transparent r.
Proof.
  unfold propagates, exception_transparent, quiet. intros Hr.
  destruct (outcome r) as [e|x].
  - destruct Hr as (pre & c & Hlog & Hpre). rewrite Hlog. split.
    + intros c' e' Hin. apply elem_of_app in Hin as [Hin|Hin].
      * rewrite Forall_forall in Hpre. by apply Hpre in Hin.
      * apply list_elem_of_singleton in Hin as [= -> ->].
        by rewrite last_snoc.
    + intros e' [= <-]. exists c. by rewrite last_snoc.
  - split; [|done]. intros c e Hin.
    rewrite Forall_forall in Hr. by apply Hr in Hin.
Qed.

End MonadFacts.

(** ** The reference model: message passing *)

Section ModelFacts.
Context `{Scalar}.

Lemma with_ndata_id (g : DGLGraph) : with_ndata g (ndata g) = g.
Proof. by destruct g. Qed.

Lemma scatter_cons (i : nat) (ids : list nat) (r : list num) (rows col : Tensor) :
  scatter (i :: ids) (r :: rows) col = scatter ids rows (<[i := r]> col).
Proof. reflexivity. Qed.

Lemma scatter_lookup_notin (ids : list nat) (rows col : Tensor) (v : nat) :
  v ∉ ids -> scatter ids rows col !! v = col !! v.
Proof.
  revert rows col.
  induction ids as [|i ids IH]; intros rows col Hv; [done|].
  destruct rows as [|r rows]; [done|].
  apply not_elem_of_cons in Hv as [Hne Hv].
  rewrite scatter_cons, IH by done.
  by apply list_lookup_insert_ne.
Qed.

Lemma scatter_lookup_in (f : nat -> list num) (ids : list nat) (col : Tensor) (v : nat) :
  v ∈ ids -> v < length col ->
  scatter ids (map f ids) col !! v = Some (f v).
Proof.
  revert col.
  induction ids as [|i ids IH]; intros col Hv Hlt.
  - by apply elem_of_nil in Hv.
  - cbn [map]. rewrite scatter_cons.
    destruct (decide (v ∈ ids)) as [Hin|Hnotin].
    + apply IH; [done|]. by rewrite length_insert.
    + rewrite scatter_lookup_notin by done.
      apply elem_of_cons in Hv as [->|Hv]; [|done].
      by apply list_lookup_insert_eq.
Qed.

Lemma scatter_length (ids : list nat) (rows col : Tensor) :
  length (scatter ids rows col) = length col.
Proof.
  unfold scatter. revert col. generalize (zip ids rows) as l.
  induction l as [|p l IH]; intros col; simpl; [done|].
  by rewrite IH, length_insert.
Qed.

Lemma scatter_groups_length f bs col : length (scatter_groups f bs col) = length col.
Proof.
  unfold scatter_groups. revert col.
  induction bs as [|b bs IH]; intros col; simpl; [done|].
  by rewrite IH, scatter_length.
Qed.

Lemma scatter_groups_notin f bs col v :
  Forall (fun ids => v ∉ ids) bs -> scatter_groups f bs col !! v = col !! v.
Proof.
  unfold scatter_groups. revert col.
  induction bs as [|b bs IH]; intros col Hv; simpl; [done|].
  apply Forall_cons in Hv as [Hb Hbs].
  rewrite IH by done. by apply scatter_lookup_notin.
Qed.

Lemma scatter_groups_in f bs col v :
  Exists (fun ids => v ∈ ids) bs -> v < length col ->
  scatter_groups f bs col !! v = Some (f v).
Proof.
  unfold scatter_groups. revert col.
  induction bs as [|b bs IH]; intros col Hv Hlt; simpl.
  - by apply Exists_nil in Hv.
  - destruct (decide (Exists (fun ids => v ∈ ids) bs)) as [Hin|Hnotin].
    + apply IH; [done|]. by rewrite scatter_length.
    + apply Exists_cons in Hv as [Hv|Hv]; [|done].
      apply not_Exists_Forall in Hnotin; [|intros x; apply _].
      change (scatter_groups f bs (scatter b (map f b) col) !! v = Some (f v)).
      rewrite scatter_groups_notin.
      * by apply scatter_lookup_in.
      * eapply Forall_impl; [exact Hnotin|]. simpl. intros x Hx. exact Hx.
Qed.

Lemma in_degree_le (g : DGLGraph) (v : nat) : in_degree g v <= length (edges g).
Proof.
  unfold in_degree, in_sources. rewrite length_map. apply length_filter.
Qed.

Lemma in_bucket (g : DGLGraph) (v : nat) :
  Exists (fun ids => v ∈ ids) (degree_buckets g) <->
  v < num_nodes g /\ in_degree g v <> 0.
Proof.
  unfold degree_buckets. rewrite Exists_exists. split.
  - intros (ids & Hids & Hv).
    apply list_elem_of_filter in Hids as [_ Hids].
    apply list_elem_of_fmap in Hids as (d & -> & Hd).
    apply list_elem_of_filter in Hv as [Hdeg Hv].
    apply elem_of_seq in Hv. apply elem_of_seq in Hd. lia.
  - intros [Hlt Hdeg].
    exists (filter (fun u => in_degree g u = in_degree g v) (seq 0 (num_nodes g))).
    assert (Hv : v ∈ filter (fun u => in_degree g u = in_degree g v)
                            (seq 0 (num_nodes g))).
    { apply list_elem_of_filter. split; [done|]. apply elem_of_seq. lia. }
    split; [|done].
    apply list_elem_of_filter. split.
    + intros Hnil. rewrite Hnil in Hv. by apply elem_of_nil in Hv.
    + apply list_elem_of_fmap. exists (in_degree g v). split; [done|].
      apply elem_of_seq. pose proof (in_degree_le g v). lia.
Qed.

Lemma received_sources (g : DGLGraph) (col : Tensor) (v : nat) :
  received (send_messages g col) v = rows_of col (in_sources g v).
Proof.
  unfold received, send_messages, rows_of, in_sources.
  induction (edges g) as [|[a b] es IH]; [done|].
  cbn [map]. rewrite !filter_cons. cbn [fst snd].
  destruct (decide (b = v)); cbn [map fst snd]; by rewrite IH.
Qed.

Lemma bucket_nodes (g : DGLGraph) (ids : list nat) (v : nat) :
  ids ∈ degree_buckets g -> v ∈ ids -> in_degree g v <> 0.
Proof.
  intros Hids Hv.
  assert (E : Exists (fun ids => v ∈ ids) (degree_buckets g)).
  { apply Exists_exists. eauto. }
  apply in_bucket in E. tauto.
Qed.

Lemma no_bucket (g : DGLGraph) (v : nat) :
  degree_buckets g = [] -> v < num_nodes g -> in_degree g v = 0.
Proof.
  intros Hnil Hv. destruct (decide (in_degree g v = 0)) as [|Hnz]; [done|].
  assert (E : Exists (fun ids => v ∈ ids) (degree_buckets g)).
  { apply in_bucket. by split. }
  rewrite Hnil in E. by apply Exists_nil in E.
Qed.

Lemma any_received_buckets (g : DGLGraph) (col : Tensor) :
  any_received g col = true <-> degree_buckets g <> [].
Proof.
  unfold any_received. rewrite existsb_exists. split.
  - intros (v & Hin & Hv) Hnil.
    apply in_seq in Hin. rewrite received_sources in Hv.
    pose proof (no_bucket g v Hnil ltac:(lia)) as Hz.
    unfold in_degree in Hz. apply length_zero_iff_nil in Hz.
    unfold rows_of in Hv. by rewrite Hz in Hv.
  - intros Hne. destruct (degree_buckets g) as [|ids bs] eqn:Hb; [done|].
    assert (Hids : ids ∈ degree_buckets g) by (rewrite Hb; left).
    destruct ids as [|v ids].
    { unfold degree_buckets in Hids. by apply list_elem_of_filter in Hids as [? _]. }
    assert (E : Exists (fun ids => v ∈ ids) (degree_buckets g)).
    { apply Exists_exists. exists (v :: ids). split; [done|left]. }
    apply in_bucket in E as [Hlt Hnz].
    exists v. split; [apply in_seq; lia|].
    rewrite received_sources. unfold in_degree in Hnz.
    destruct (in_sources g v); [done|]. done.
Qed.

Lemma in_unreached (g : DGLGraph) (v : nat) :
  v ∈ unreached g <-> v < num_nodes g /\ in_degree g v = 0.
Proof.
  unfold unreached. rewrite list_elem_of_filter, elem_of_seq. split; [|lia].
  intros [? ?]. split; [lia|done].
Qed.

(** Node by node, the rows written by the groups are the means of the
    messages received, and zeros where no message was received. *)
Lemma mean_of_received_groups (g : DGLGraph) (col : Tensor) :
  length col = num_nodes g ->
  match degree_buckets g with
  | [] => col
  | _ :: _ => scatter_groups (node_row g col) (unreached g :: degree_buckets g) col
  end = mean_of_received g col.
Proof.
  intros Hlen.
  apply (list_eq_same_length _ _ (length col)).
  - unfold mean_of_received. by rewrite length_imap.
  - destruct (degree_buckets g); [done|]. apply scatter_groups_length.
  - intros v x y Hv Hx Hy.
    unfold mean_of_received in Hy. rewrite list_lookup_imap in Hy.
    destruct (col !! v) as [row|] eqn:Hrow; [|done].
    cbn -[mean_rows received any_received] in Hy. rewrite received_sources in Hy.
    destruct (degree_buckets g) as [|b bs] eqn:Hb.
    + pose proof (no_bucket g v Hb ltac:(lia)) as Hz.
      unfold in_degree in Hz. apply length_zero_iff_nil in Hz.
      unfold rows_of in Hy. rewrite Hz in Hy. cbn [map] in Hy.
      destruct (any_received g col) eqn:Hany.
      * apply any_received_buckets in Hany. by rewrite Hb in Hany.
      * congruence.
    + rewrite <- Hb in Hx. rewrite scatter_groups_in in Hx; [|  |done].
      * injection Hx as <-. unfold node_row.
        destruct (decide (in_degree g v = 0)) as [Hz|Hnz].
        -- unfold in_degree in Hz. apply length_zero_iff_nil in Hz.
           unfold rows_of in Hy. rewrite Hz in Hy. cbn [map] in Hy.
           assert (Hany : any_received g col = true).
           { apply any_received_buckets. by rewrite Hb. }
           rewrite Hany in Hy. injection Hy as <-.
           by rewrite (list_lookup_total_correct _ _ _ Hrow).
        -- unfold node_mean.
           destruct (rows_of col (in_sources g v)) as [|m ms] eqn:Hr.
           ++ exfalso. apply Hnz. unfold rows_of in Hr.
              apply map_eq_nil in Hr. unfold in_degree. by rewrite Hr.
           ++ congruence.
      * destruct (decide (in_degree g v = 0)) as [Hz|Hnz].
        -- apply Exists_cons_hd. apply in_unreached. split; [lia|done].
        -- apply Exists_cons_tl. apply in_bucket. split; [lia|done].
Qed.

Lemma rows_ok_singleton (k : nat) (key : string) (t : Tensor) :
  rows_ok k {[ key := t ]} = (length t =? k).
Proof.
  unfold rows_ok. destruct (Nat.eqb_spec (length t) k) as [E|E].
  - apply bool_decide_eq_true. by apply map_Forall_singleton.
  - apply bool_decide_eq_false. intros Hf. by apply map_Forall_singleton in Hf.
Qed.

Lemma reduce_bucket_mean (g : DGLGraph) (col : Tensor) (ids : list nat) :
  reduce_bucket g "m" col reduce ids =
    inr (ids, {[ "h" := map (node_mean g col) ids ]}).
Proof.
  unfold reduce_bucket, reduce. cbn [nb_mailbox].
  rewrite lookup_singleton_eq. unfold torch_mean_dim1. rewrite map_map.
  rewrite rows_ok_singleton, length_map, Nat.eqb_refl. reflexivity.
Qed.

Lemma reduce_all_mean (g : DGLGraph) (col : Tensor) (bs : list (list nat)) :
  reduce_all g "m" col reduce bs =
    inr (map (fun ids => (ids, {[ "h" := map (node_mean g col) ids ]})) bs).
Proof.
  induction bs as [|b bs IH]; [done|].
  cbn [reduce_all map]. by rewrite reduce_bucket_mean, IH.
Qed.

Lemma write_rows_singleton (n : nat) (ids : list nat) (t col : Tensor)
    (nd : gmap string Tensor) :
  nd !! "h" = Some col ->
  write_rows n ids {[ "h" := t ]} nd = <[ "h" := scatter ids t col ]> nd.
Proof.
  intros Hcol. apply map_eq. intros k. unfold write_rows.
  rewrite lookup_merge.
  destruct (decide (k = "h")) as [->|Hne].
  - by rewrite lookup_singleton_eq, lookup_insert_eq, Hcol.
  - rewrite lookup_singleton_ne, lookup_insert_ne by done.
    by destruct (nd !! k).
Qed.

Lemma write_groups (n : nat) (f : nat -> list num) (bs : list (list nat))
    (col : Tensor) (nd : gmap string Tensor) :
  nd !! "h" = Some col ->
  fold_left (fun nd r => write_rows n (fst r) (snd r) nd)
            (map (fun ids => (ids, {[ "h" := map f ids ]})) bs) nd
  = <[ "h" := scatter_groups f bs col ]> nd.
Proof.
  revert col nd.
  induction bs as [|b bs IH]; intros col nd Hcol.
  - cbn. by rewrite insert_id.
  - cbn [map fold_left fst snd].
    rewrite (write_rows_singleton _ _ _ col) by done.
    rewrite (IH (scatter b (map f b) col)) by apply lookup_insert_eq.
    by rewrite insert_insert_eq.
Qed.

Lemma reduce_all_buckets (g : DGLGraph) (col : Tensor) :
  reduce_all g "m" col reduce (degree_buckets g) =
    inr (map (fun ids => (ids, {[ "h" := map (node_row g col) ids ]}))
             (degree_buckets g)).
Proof.
  rewrite reduce_all_mean. f_equal.
  apply map_ext_in. intros ids Hids. f_equal. f_equal.
  apply map_ext_in. intros v Hv. unfold node_row.
  rewrite decide_False; [done|].
  eapply bucket_nodes; by apply list_elem_of_In.
Qed.

Lemma unreached_frame_singleton (g : DGLGraph) (col t : Tensor) :
  ndata g !! "h" = Some col ->
  unreached_frame g {[ "h" := t ]} = {[ "h" := map (node_row g col) (unreached g) ]}.
Proof.
  intros Hcol. apply map_eq. intros k. unfold unreached_frame.
  rewrite lookup_merge.
  destruct (decide (k = "h")) as [->|Hne].
  - rewrite !lookup_singleton_eq, Hcol. cbn. f_equal.
    apply map_ext_in. intros v Hv. unfold node_row.
    apply list_elem_of_In, in_unreached in Hv as [_ Hz].
    by rewrite decide_True.
  - rewrite !lookup_singleton_ne by done. by destruct (ndata g !! k).
Qed.

(** [update_all(msg, reduce)]: every node that received messages gets
    their mean as its ['h']; nothing else changes. *)
Lemma update_all_mean (g : DGLGraph) (col : Tensor) :
  ndata g !! "h" = Some col ->
  length col = num_nodes g ->
  update_all msg reduce g =
    (with_ndata g (<[ "h" := mean_of_received g col ]> (ndata g)), inr tt).
Proof.
  intros Hcol Hlen.
  rewrite <- mean_of_received_groups by done.
  cbn [update_all dgl]. unfold m_update_all.
  destruct (edges g) as [|e es] eqn:He.
  - assert (Hb : degree_buckets g = []).
    { unfold degree_buckets. by rewrite He. }
    rewrite Hb. by rewrite insert_id, with_ndata_id.
  - cbn [msg]. rewrite Hcol, reduce_all_buckets.
    destruct (degree_buckets g) as [|b bs] eqn:Hb.
    + cbn. by rewrite insert_id, with_ndata_id.
    + cbn [map with_unreached snd].
      rewrite (unreached_frame_singleton _ col) by done.
      pose proof (write_groups (num_nodes g) (node_row g col)
                    (unreached g :: b :: bs) col (ndata g) Hcol) as Hw.
      cbn [map] in Hw. by rewrite Hw.
Qed.

Lemma Linear_forward_ok (l : Linear) (x y : Tensor) :
  Linear_forward l x = inr y -> y = map (affine l) x.
Proof.
  unfold Linear_forward. destruct (forallb _ x); [|done].
  by intros [= <-].
Qed.

Lemma apply_nodes_run (am : NodeApplyModule) (g : DGLGraph) (x : Tensor) :
  ndata g !! "h" = Some x ->
  apply_nodes (NodeApplyModule_forward am) g =
    match Linear_forward (linear am) x with
    | inl e => (g, inl e)
    | inr y =>
        if length (activation am y) =? num_nodes g
        then (with_ndata g (<[ "h" := activation am y ]> (ndata g)), inr tt)
        else (g, inl (DGLError "apply_nodes: wrong number of rows"))
    end.
Proof.
  intros Hx. cbn [apply_nodes dgl]. unfold m_apply_nodes, NodeApplyModule_forward.
  cbn [nb_data]. rewrite Hx.
  destruct (Linear_forward (linear am) x) as [e|y]; [done|].
  rewrite rows_ok_singleton.
  destruct (length (activation am y) =? num_nodes g); [|done].
  by rewrite insert_union_singleton_l.
Qed.

(** Every run of a layer on the reference model. *)
Lemma GCN_forward_run (self : GCN) (feature : Tensor) (g : DGLGraph) :
  GCN_forward self feature g =
    if length feature =? num_nodes g then
      match Linear_forward (linear (apply_mod self)) (mean_of_received g feature) with
      | inl e =>
          MkRun (mid_layer g feature)
            [ok (c_set_ndata "h"); ok c_update_all; (c_apply_nodes, Some e)]
            (inl e)
      | inr y =>
          if length (activation (apply_mod self) y) =? num_nodes g then
            MkRun (with_ndata g (delete "h" (ndata g)))
              [ok (c_set_ndata "h"); ok c_update_all; ok c_apply_nodes;
               ok (c_pop_ndata "h")]
              (inr (activation (apply_mod self) y))
          else
            MkRun (mid_layer g feature)
              [ok (c_set_ndata "h"); ok c_update_all;
               (c_apply_nodes, Some (DGLError "apply_nodes: wrong number of rows"))]
              (inl (DGLError "apply_nodes: wrong number of rows"))
      end
    else
      MkRun g
        [(c_set_ndata "h",
          Some (DGLError "Expect number of features to match number of nodes"))]
        (inl (DGLError "Expect number of features to match number of nodes")).
Proof.
  unfold GCN_forward, bind. rewrite run_call.
  cbn [set_ndata dgl]. unfold m_set_ndata.
  destruct (Nat.eqb_spec (length feature) (num_nodes g)) as [Hlen|Hlen]; [|done].
  cbn [fst snd outcome final log]. rewrite run_call.
  rewrite (update_all_mean _ feature);
    [|apply lookup_insert_eq|done].
  cbn [fst snd outcome final log with_ndata ndata num_nodes].
  rewrite insert_insert_eq. rewrite run_call.
  rewrite (apply_nodes_run _ _ (mean_of_received g feature)) by apply lookup_insert_eq.
  cbn [with_ndata ndata num_nodes edges batch_num_nodes].
  replace (mean_of_received
             (MkGraph (num_nodes g) (edges g)
                (<["h":=mean_of_received
                          (MkGraph (num_nodes g) (edges g) (<["h":=feature]> (ndata g))
                             (batch_num_nodes g)) feature]> (ndata g))
                (batch_num_nodes g)) feature)
    with (mean_of_received g feature) by reflexivity.
  change (mean_of_received
            (MkGraph (num_nodes g) (edges g) (<["h":=feature]> (ndata g))
               (batch_num_nodes g)) feature)
    with (mean_of_received g feature).
  destruct (Linear_forward (linear (apply_mod self)) (mean_of_received g feature))
    as [e|y]; [done|].
  destruct (length (activation (apply_mod self) y) =? num_nodes g); [|done].
  cbn [fst snd outcome final log]. rewrite run_call.
  cbn [pop_ndata dgl]. unfold m_pop_ndata.
  cbn [ndata with_ndata]. rewrite lookup_insert_eq.
  cbn [fst snd outcome final log with_ndata ndata num_nodes edges batch_num_nodes app].
  by rewrite insert_insert_eq, delete_insert_eq.
Qed.

(** A layer that returns: what it returns, what it called, and the graph
    it leaves behind. *)
Lemma GCN_forward_ok (self : GCN) (feature : Tensor) (g : DGLGraph) (out : Tensor) :
  outcome (GCN_forward self feature g) = inr out ->
  out = gcn_layer_spec self g feature /\
  final (GCN_forward self feature g) = with_ndata g (delete "h" (ndata g)) /\
  log (GCN_forward self feature g) = layer_calls /\
  length feature = num_nodes g /\
  length out = num_nodes g.
Proof.
  rewrite GCN_forward_run.
  destruct (Nat.eqb_spec (length feature) (num_nodes g)) as [Hlen|Hlen]; [|done].
  destruct (Linear_forward _ _) as [e|y] eqn:Hlin; [done|].
  destruct (Nat.eqb_spec (length (activation (apply_mod self) y)) (num_nodes g))
    as [Hrows|Hrows]; [|done].
  cbn [outcome final log]. intros [= <-].
  apply Linear_forward_ok in Hlin. subst y.
  by repeat split.
Qed.

Lemma for_layers_ok (convs : list GCN) (h : Tensor) (g : DGLGraph) (out : Tensor) :
  outcome (for_layers convs h g) = inr out ->
  out = fold_left (fun x conv => gcn_layer_spec conv g x) convs h /\
  final (for_layers convs h g) =
    with_ndata g (match convs with [] => ndata g | _ :: _ => delete "h" (ndata g) end) /\
  log (for_layers convs h g) = concat (map (fun _ => layer_calls) convs).
Proof.
  revert h g out.
  induction convs as [|conv rest IH]; intros h g out.
  - cbn. intros [= <-]. by rewrite with_ndata_id.
  - cbn [for_layers].
    destruct (outcome (GCN_forward conv h g)) as [e|h'] eqn:Hconv.
    { by rewrite (run_bind_raise _ _ _ _ Hconv). }
    rewrite (run_bind_ok _ _ _ _ Hconv).
    cbn [outcome final log]. intros Hrest.
    apply GCN_forward_ok in Hconv as (-> & Hfin & Hlog & _ & _).
    rewrite Hfin in *. rewrite Hlog.
    apply IH in Hrest as (-> & Hfin' & Hlog').
    rewrite Hfin', Hlog'. cbn [fold_left map concat].
    split; [done|]. split; [|done].
    destruct rest; cbn [with_ndata ndata num_nodes edges batch_num_nodes]; [done|].
    by rewrite delete_delete_eq.
Qed.

Lemma degree_column_eq (g : DGLGraph) :
  view_col_float (map (in_degree g) (seq 0 (num_nodes g))) = degree_column g.
Proof.
  unfold view_col_float, degree_column. rewrite map_map.
  apply map_ext. intros v. unfold in_degree, in_sources. by rewrite length_map.
Qed.

(** A forward pass of the classifier that returns. *)
Lemma Classifier_forward_ok (self : Classifier) (g : DGLGraph) (logits : Tensor) :
  outcome (Classifier_forward self g) = inr logits ->
  let h := fold_left (fun x conv => gcn_layer_spec conv g x) (layers self)
                     (degree_column g) in
  Linear_forward (classify self) (readout_spec g h) = inr logits /\
  final (Classifier_forward self g) = with_ndata g (<[ "h" := h ]> (ndata g)) /\
  log (Classifier_forward self g) =
    ok c_in_degrees :: concat (map (fun _ => layer_calls) (layers self))
    ++ [ok (c_set_ndata "h"); ok (c_mean_nodes "h"); ok c_linear].
Proof.
  unfold Classifier_forward.
  rewrite (run_bind_ok _ _ g (map (in_degree g) (seq 0 (num_nodes g))))
    by reflexivity.
  cbn [final log outcome call in_degrees dgl m_in_degrees].
  rewrite degree_column_eq.
  destruct (outcome (for_layers (layers self) (degree_column g) g))
    as [e|h] eqn:Hl.
  { by rewrite (run_bind_raise _ _ _ _ Hl). }
  rewrite (run_bind_ok _ _ _ _ Hl). cbn [final log outcome].
  apply for_layers_ok in Hl as (-> & Hfin & Hlog). rewrite Hfin, Hlog.
  set (h := fold_left _ _ _).
  unfold bind. rewrite !run_call.
  cbn [set_ndata mean_nodes dgl]. unfold m_set_ndata.
  cbn [num_nodes with_ndata].
  destruct (length h =? num_nodes g); [|done].
  cbn [fst snd final log outcome]. unfold m_mean_nodes.
  cbn [ndata with_ndata]. rewrite lookup_insert_eq.
  cbn [fst snd final log outcome batch_num_nodes with_ndata call_pure call].
  fold (readout_spec g h).
  destruct (Linear_forward (classify self) (readout_spec g h)) as [e|y]; [done|].
  cbn [fst snd final log outcome]. intros [= <-].
  split; [done|]. split; [|done].
  destruct (layers self); cbn [with_ndata ndata num_nodes edges batch_num_nodes];
    [done|]. by rewrite insert_delete_eq.
Qed.

End ModelFacts.

(** ** The graph-convolution layer *)



(** Claim C10.  After a forward pass of a layer that returns, the graph's
    node data has no ['h']: it is the node data from before the call with
    ['h'] deleted, whether or not ['h'] was there. *)
Theorem C10_h_absent_after_GCN_forward `{Scalar}
    (self : GCN) (feature : Tensor) (g : DGLGraph) (out : Tensor) :
  outcome (GCN_forward self feature g) = inr out ->
  ndata (final (GCN_forward self feature g)) !! "h" = None /\
  ndata (final (GCN_forward self feature g)) = delete "h" (ndata g).
Proof.
  intros Hout.
  apply GCN_forward_ok in Hout as (_ & -> & _).
  cbn [ndata with_ndata]. split; [apply lookup_delete_eq | done].
Qed.

Lemma C10_witness :
  ndata ex_tagged !! "h" = Some [[5%Q]; [7%Q]] /\
  ndata (final (GCN_forward ex_layer [[1%Q]; [3%Q]] ex_tagged)) !! "h" = None.
Proof.
  split; [vm_compute; reflexivity|].
  refine (proj1 (C10_h_absent_after_GCN_forward ex_layer [[1%Q]; [3%Q]] ex_tagged
                   [[2%Q; 0%Q]; [2%Q; 0%Q]] _)).
  vm_compute; reflexivity.
Defined.

(** ** The classifier *)

(** Claim C5.  The classifier built by [Classifier(in_dim, hidden_dim,
    n_classes)] applies its two graph-convolution layers one after the
    other to the node features (the in-degrees), averages the resulting
    node features graph by graph, applies the linear map [classify] once,
    and returns that result: no softmax is applied. *)
Theorem C5_Classifier_two_layers `{Scalar}
    (in_dim hidden_dim n_classes : nat)
    (w1 : list (list num)) (b1 : list num)
    (w2 : list (list num)) (b2 : list num)
    (w3 : list (list num)) (b3 : list num)
    (g : DGLGraph) (logits : Tensor) :
  let self := Classifier_init in_dim hidden_dim n_classes w1 b1 w2 b2 w3 b3 in
  let conv1 := GCN_init in_dim hidden_dim F_relu w1 b1 in
  let conv2 := GCN_init hidden_dim hidden_dim F_relu w2 b2 in
  outcome (Classifier_forward self g) = inr logits ->
  layers self = [conv1; conv2] /\
  logits =
    map (affine (MkLinear hidden_dim n_classes w3 b3))
      (readout_spec g
         (gcn_layer_spec conv2 g (gcn_layer_spec conv1 g (degree_column g)))) /\
  log (Classifier_forward self g) =
    ok c_in_degrees :: layer_calls ++ layer_calls
    ++ [ok (c_set_ndata "h"); ok (c_mean_nodes "h"); ok c_linear].
Proof.
  intros self conv1 conv2 Hout.
  apply Classifier_forward_ok in Hout as (Hlin & _ & Hlog).
  apply Linear_forward_ok in Hlin.
  split; [done|]. split; [exact Hlin|].
  rewrite Hlog. cbn [layers self Classifier_init map concat].
  by rewrite app_nil_r, <- app_assoc.
Qed.

Lemma C5_witness :
  outcome (Classifier_forward ex_model ex_path)
    = inr [[(185 # 54)%Q; (131 # 54)%Q]] /\
  [[(185 # 54)%Q; (131 # 54)%Q]] =
    map (affine (classify ex_model))
      (readout_spec ex_path
         (gcn_layer_spec (GCN_init 2 2 F_relu [[1%Q; 2%Q]; [0%Q; 1%Q]] [0%Q; 0%Q]) ex_path
            (gcn_layer_spec ex_layer ex_path (degree_column ex_path)))).
Proof.
  assert (E : outcome (Classifier_forward ex_model ex_path)
              = inr [[(185 # 54)%Q; (131 # 54)%Q]])
    by (vm_compute; reflexivity).
  split; [exact E|].
  exact (proj1 (proj2 (C5_Classifier_two_layers 1 2 2 _ _ _ _ _ _ ex_path _ E))).
Defined.

(** ** Exceptions: the functions of the notebook, over any backend *)

Section NotebookFacts.
Context `{Scalar} `{!Backend}.

Lemma for_enumerate_propagates {St A B} (xs : list A) (i : nat)
    (body : nat -> A -> M St B) (s : St) :
  (forall j x s', propagates (body j x s')) ->
  propagates (for_enumerate xs i body s).
Proof.
  intros Hbody. revert i s.
  induction xs as [|x xs IH]; intros i s; cbn [for_enumerate].
  - apply propagates_ret.
  - apply propagates_bind; [apply Hbody|]. intros _ s'. apply IH.
Qed.

Lemma collate_propagates {St} (samples : list sample) (s : St) :
  propagates (collate samples s).
Proof.
  unfold collate, call_pure.
  apply propagates_bind; [apply propagates_call|]. intros [graphs labels] s1.
  apply propagates_bind; [apply propagates_call|]. intros bg s2.
  apply propagates_bind; [apply propagates_call|]. intros t s3.
  apply propagates_ret.
Qed.

Lemma GCN_forward_propagates (self : GCN) (feature : Tensor) (g : DGLGraph) :
  propagates (GCN_forward self feature g).
Proof.
  unfold GCN_forward.
  repeat (apply propagates_bind; [apply propagates_call|]; intros ? ?).
  apply propagates_call.
Qed.

Lemma for_layers_propagates (convs : list GCN) (h : Tensor) (g : DGLGraph) :
  propagates (for_layers convs h g).
Proof.
  revert h g. induction convs as [|conv rest IH]; intros h g; cbn [for_layers].
  - apply propagates_ret.
  - apply propagates_bind; [apply GCN_forward_propagates|]. intros h' g'. apply IH.
Qed.

Lemma Classifier_forward_propagates (self : Classifier) (g : DGLGraph) :
  propagates (Classifier_forward self g).
Proof.
  unfold Classifier_forward, call_pure.
  apply propagates_bind; [apply propagates_call|]. intros d g1.
  apply propagates_bind; [apply for_layers_propagates|]. intros h g2.
  apply propagates_bind; [apply propagates_call|]. intros _ g3.
  apply propagates_bind; [apply propagates_call|]. intros hg g4.
  apply propagates_call.
Qed.

(** Every run of [collate]. *)
Lemma collate_run {St} (samples : list sample) (s : St) :
  collate samples s =
    match unzip_samples samples with
    | inl e => MkRun s [(c_unpack, Some e)] (inl e)
    | inr (graphs, labels) =>
        match dgl_batch graphs with
        | inl e => MkRun s [ok c_unpack; (c_dgl_batch, Some e)] (inl e)
        | inr bg =>
            match torch_tensor labels with
            | inl e =>
                MkRun s [ok c_unpack; ok c_dgl_batch; (c_torch_tensor, Some e)] (inl e)
            | inr t =>
                MkRun s [ok c_unpack; ok c_dgl_batch; ok c_torch_tensor] (inr (bg, t))
            end
        end
    end.
Proof.
  unfold collate, call_pure, bind, call.
  destruct (unzip_samples samples) as [e|[graphs labels]]; cbn; [done|].
  destruct (dgl_batch graphs) as [e|bg]; cbn; [done|].
  by destruct (torch_tensor labels) as [e|t].
Qed.

Lemma collate_ok {St} (samples : list sample) (s : St) (r : DGLGraph * list Z) :
  outcome (collate samples s) = inr r ->
  final (collate samples s) = s /\ log (collate samples s) = collate_calls.
Proof.
  rewrite collate_run.
  destruct (unzip_samples samples) as [e|[graphs labels]]; [done|].
  destruct (dgl_batch graphs) as [e|bg]; [done|].
  by destruct (torch_tensor labels).
Qed.

Lemma collate_final {St} (samples : list sample) (s : St) :
  final (collate samples s) = s.
Proof.
  rewrite collate_run.
  destruct (unzip_samples samples) as [e|[graphs labels]]; [done|].
  destruct (dgl_batch graphs) as [e|bg]; [done|].
  by destruct (torch_tensor labels).
Qed.

Lemma torch_tensor_ok (labels t : list Z) :
  torch_tensor labels = inr t -> t = labels.
Proof.
  unfold torch_tensor. destruct (forallb _ labels); [|done]. by intros [= <-].
Qed.

End NotebookFacts.

(** ** The training loop and the evaluation, over any backend *)

Section CellFacts.
Context `{Scalar} `{!Backend} {Grads OptState : Type}.
Variable loss_func : Tensor -> list Z -> result num.
Variable zero_grad : Grads -> Grads.
Variable backward : Classifier -> DGLGraph -> list Z -> Grads -> result Grads.
Variable adam_step : OptState -> Classifier -> Grads -> result (OptState * Classifier).
Variable softmax : Tensor -> result Tensor.
Variable multinomial : Tensor -> result (list Z).
Variable max_index : Tensor -> result (list Z).
Variable trainset : list sample.
Variable shuffle : nat -> list sample -> list sample.

Local Abbreviation step := (train_step loss_func zero_grad backward adam_step).
Local Abbreviation body := (loop_body loss_func zero_grad backward adam_step).
Local Abbreviation epoch :=
  (train_epoch loss_func zero_grad backward adam_step trainset shuffle).
Local Abbreviation train :=
  (training loss_func zero_grad backward adam_step trainset shuffle).
Local Abbreviation eval :=
  (evaluation (Grads:=Grads) (OptState:=OptState) softmax multinomial max_index).
Local Abbreviation loader := (data_loader trainset shuffle).
Local Abbreviation Env := (@Env _ Grads OptState).
Local Abbreviation losses_of := (step_losses loss_func zero_grad backward adam_step).
Local Abbreviation reported :=
  (reported_loss loss_func zero_grad backward adam_step).
Local Abbreviation reports :=
  (epoch_reports loss_func zero_grad backward adam_step trainset shuffle).

(** Every run of one gradient-descent step. *)
Lemma train_step_run (bg : DGLGraph) (label : list Z) (s : Env) :
  step bg label s =
    let f := Classifier_forward (model s) bg in
    match outcome f with
    | inl e => MkRun s (log f) (inl e)
    | inr pred =>
        match loss_func pred label with
        | inl e => MkRun s (log f ++ [(c_loss_func, Some e)]) (inl e)
        | inr loss =>
            let s1 := set_grads (zero_grad (grads s)) s in
            match backward (model s) bg label (zero_grad (grads s)) with
            | inl e =>
                MkRun s1
                  (log f ++ [ok c_loss_func; ok c_zero_grad; (c_backward, Some e)])
                  (inl e)
            | inr gr =>
                match adam_step (optimizer s) (model s) gr with
                | inl e =>
                    MkRun (set_grads gr s1)
                      (log f ++ [ok c_loss_func; ok c_zero_grad; ok c_backward;
                                 (c_step, Some e)])
                      (inl e)
                | inr om =>
                    MkRun (after_step gr om s1)
                      (step_calls (log f))
                      (inr loss)
                end
            end
        end
    end.
Proof.
  unfold train_step. cbv zeta.
  rewrite (run_bind_ok _ _ s s) by reflexivity. cbn [final log outcome get].
  destruct (outcome (Classifier_forward (model s) bg)) as [e|pred] eqn:Hf.
  { rewrite (run_bind_raise _ _ s e)
      by (unfold on_object; cbn [outcome]; by rewrite Hf).
    reflexivity. }
  rewrite (run_bind_ok _ _ s (final (Classifier_forward (model s) bg), pred))
    by (unfold on_object; cbn [outcome]; by rewrite Hf).
  cbn [final log outcome on_object fst snd].
  destruct (loss_func pred label) as [e|loss] eqn:Hl.
  { rewrite (run_bind_raise _ _ s e) by (by rewrite run_call_pure).
    rewrite run_call_pure. reflexivity. }
  rewrite (run_bind_ok _ _ s loss) by (by rewrite run_call_pure).
  rewrite run_call_pure. cbn [final log outcome].
  rewrite (run_bind_ok _ _ s tt) by reflexivity.
  cbn [final log outcome call fst snd].
  destruct (backward (model s) bg label (zero_grad (grads s))) as [e|gr] eqn:Hb.
  { rewrite (run_bind_raise _ _ _ e) by (rewrite run_call; cbn; by rewrite Hb).
    rewrite run_call. cbn [final log outcome model grads set_grads fst snd].
    rewrite Hb. reflexivity. }
  rewrite (run_bind_ok _ _ _ tt) by (rewrite run_call; cbn; by rewrite Hb).
  rewrite run_call. cbn [final log outcome model grads set_grads fst snd].
  rewrite Hb. cbn [final log outcome fst snd].
  destruct (adam_step (optimizer s) (model s) gr) as [e|om] eqn:Ha.
  { rewrite (run_bind_raise _ _ _ e) by (rewrite run_call; cbn; by rewrite Ha).
    rewrite run_call. cbn [final log outcome model grads optimizer set_grads fst snd].
    rewrite Ha. reflexivity. }
  rewrite (run_bind_ok _ _ _ tt) by (rewrite run_call; cbn; by rewrite Ha).
  rewrite run_call. cbn [final log outcome model grads optimizer set_grads fst snd].
  rewrite Ha. cbn [final log outcome fst snd ret].
  unfold step_calls, after_step. by rewrite app_nil_r.
Qed.

(** A step that returns. *)
Lemma train_step_ok (bg : DGLGraph) (label : list Z) (s : Env) (loss : num) :
  outcome (step bg label s) = inr loss ->
  exists pred gr om,
    outcome (Classifier_forward (model s) bg) = inr pred /\
    final (step bg label s) = after_step gr om (set_grads (zero_grad (grads s)) s) /\
    log (step bg label s) = step_calls (log (Classifier_forward (model s) bg)).
Proof.
  rewrite train_step_run. cbv zeta.
  destruct (outcome (Classifier_forward (model s) bg)) as [e|pred]; [done|].
  destruct (loss_func pred label); [done|].
  destruct (backward _ bg label _) as [e|gr]; [done|].
  destruct (adam_step _ _ gr) as [e|om]; [done|].
  intros _. by exists pred, gr, om.
Qed.

(** Every run of the body of the inner loop. *)
Lemma loop_body_run (it : nat) (group : list sample) (s : Env) :
  body it group s =
    match outcome (collate group s) with
    | inl e => MkRun s (log (collate group s)) (inl e)
    | inr b =>
        let r := step (fst b) (snd b) (set_iter (Some it) s) in
        match outcome r with
        | inl e => MkRun (final r) (collate_calls ++ log r) (inl e)
        | inr loss =>
            MkRun (set_epoch_loss (s_add (epoch_loss (final r)) loss) (final r))
                  (collate_calls ++ log r) (inr loss)
        end
    end.
Proof.
  unfold loop_body. cbv zeta.
  destruct (outcome (collate group s)) as [e|b] eqn:Hc.
  { rewrite (run_bind_raise _ _ s e Hc).
    by rewrite collate_final. }
  rewrite (run_bind_ok _ _ s b Hc).
  destruct (collate_ok _ _ _ Hc) as [-> ->].
  rewrite (run_bind_ok _ _ s tt) by reflexivity.
  cbn [final log outcome modify].
  destruct (outcome (step (fst b) (snd b) (set_iter (Some it) s))) as [e|l] eqn:Hs.
  { by rewrite (run_bind_raise _ _ _ e Hs). }
  rewrite (run_bind_ok _ _ _ l Hs).
  rewrite (run_bind_ok _ _ _ tt) by reflexivity.
  cbn [final log outcome modify ret]. by rewrite !app_nil_r.
Qed.

(** A step of the inner loop that returns. *)
Lemma loop_body_ok (it : nat) (group : list sample) (s : Env) (loss : num) :
  outcome (body it group s) = inr loss ->
  epoch_loss (final (body it group s)) = s_add (epoch_loss s) loss /\
  iter (final (body it group s)) = Some it /\
  stdout (final (body it group s)) = stdout s /\
  epoch_losses (final (body it group s)) = epoch_losses s /\
  minibatch_record (log (body it group s)).
Proof.
  rewrite loop_body_run. cbv zeta.
  destruct (outcome (collate group s)) as [e|[bg t]]; [done|]. cbn [fst snd].
  destruct (outcome (step bg t (set_iter (Some it) s))) as [e|l] eqn:Hs; [done|].
  cbn [outcome final log]. intros [= ->].
  apply train_step_ok in Hs as (pred & gr & om & Hf & -> & ->).
  repeat split; try done.
  by exists (model s), bg, pred.
Qed.

(** An inner loop that returns: it adds up the loss values of its steps,
    leaves the index of the last step in [iter], prints nothing. *)
Lemma for_enumerate_ok (groups : list (list sample)) (i : nat) (s : Env) :
  outcome (for_enumerate groups i body s) = inr tt ->
  let s' := final (for_enumerate groups i body s) in
  epoch_loss s' = fold_left s_add (losses_of groups i s) (epoch_loss s) /\
  length (losses_of groups i s) = length groups /\
  iter s' = match groups with
            | [] => iter s
            | _ :: _ => Some (i + length groups - 1)
            end /\
  stdout s' = stdout s /\
  epoch_losses s' = epoch_losses s /\
  exists steps, length steps = length groups /\
                Forall minibatch_record steps /\
                log (for_enumerate groups i body s) = concat steps.
Proof.
  revert i s. induction groups as [|group rest IH]; intros i s.
  - cbn. intros _. repeat split; try done. by exists [].
  - cbn [for_enumerate step_losses].
    destruct (outcome (body i group s)) as [e|loss] eqn:Hb.
    { by rewrite (run_bind_raise _ _ _ _ Hb). }
    rewrite (run_bind_ok _ _ _ _ Hb). cbn [outcome final log].
    intros Hrest.
    apply loop_body_ok in Hb as (Hel & Hit & Hso & Hes & Hrec).
    apply IH in Hrest as (Hel' & Hlen' & Hit' & Hso' & Hes' & steps & Hn & Hall & Hlog).
    rewrite Hel', Hso', Hes', Hit', Hel, Hso, Hes, Hlog.
    cbn [fold_left length]. rewrite Hlen'.
    repeat split; try done.
    + destruct rest; cbn [length]; [by rewrite Hit; f_equal; lia | f_equal; lia].
    + exists (log (body i group s) :: steps).
      cbn [length concat]. rewrite Hn.
      split; [done|]. split; [by apply Forall_cons|done].
Qed.

Lemma data_loader_nonempty (e : nat) :
  trainset <> [] ->
  (forall e l, length (shuffle e l) = length l) ->
  loader e <> [].
Proof.
  intros Hne Hlen. unfold data_loader.
  specialize (Hlen e trainset).
  destruct (shuffle e trainset) as [|x l]; cbn in *.
  - destruct trainset; [done|]. cbn in Hlen. lia.
  - done.
Qed.

(** Every run of the body of the outer loop. *)
Lemma train_epoch_run (e : nat) (s : Env) :
  epoch e s =
    let r := for_enumerate (loader e) 0 body (set_epoch_loss s_zero s) in
    match outcome r with
    | inl err => MkRun (final r) (log r) (inl err)
    | inr _ =>
        match iter_plus_1 (final r) with
        | inl err => MkRun (final r) (log r ++ [(c_arith, Some err)]) (inl err)
        | inr n =>
            let s2 := set_epoch_loss (s_div (epoch_loss (final r)) (s_of_nat n))
                                     (final r) in
            let s3 := print (EpochLine e (epoch_loss s2)) s2 in
            MkRun (set_epoch_losses (epoch_losses s3 ++ [epoch_loss s3]) s3)
                  (log r ++ [ok c_arith; ok c_print]) (inr tt)
        end
    end.
Proof.
  unfold train_epoch, bind, modify, get, call_pure, call. cbn.
  destruct (outcome (for_enumerate (loader e) 0 body (set_epoch_loss s_zero s)));
    [done|].
  by destruct (iter_plus_1 _).
Qed.

(** An epoch that returns after at least one step: the line it prints
    and the value it appends, and the calls it made. *)
Lemma train_epoch_ok (e : nat) (s : Env) :
  outcome (epoch e s) = inr tt ->
  loader e <> [] ->
  stdout (final (epoch e s)) = stdout s ++ [EpochLine e (reported (loader e) s)] /\
  epoch_losses (final (epoch e s)) = epoch_losses s ++ [reported (loader e) s] /\
  length (losses_of (loader e) 0 (set_epoch_loss s_zero s)) = length (loader e) /\
  exists steps, length steps = length (loader e) /\
                Forall minibatch_record steps /\
                log (epoch e s) = epoch_calls steps.
Proof.
  rewrite train_epoch_run. cbv zeta. intros Hout Hne.
  destruct (outcome (for_enumerate (loader e) 0 body (set_epoch_loss s_zero s)))
    as [err|[]] eqn:Hloop; [done|].
  apply for_enumerate_ok in Hloop
    as (Hel & Hlen & Hit & Hso & Hes & steps & Hn & Hall & Hlog).
  set (s1 := final (for_enumerate (loader e) 0 body (set_epoch_loss s_zero s))) in *.
  assert (Hiter : iter_plus_1 s1 = inr (length (loader e))).
  { unfold iter_plus_1. rewrite Hit.
    destruct (loader e) as [|? ?] eqn:Hl; [done|]. cbn [length]. f_equal. lia. }
  rewrite Hiter in *. cbn [outcome final log].
  cbn [print set_epoch_loss set_epoch_losses stdout epoch_losses epoch_loss].
  unfold reported_loss. rewrite Hel, Hso, Hes, Hlen.
  cbn [set_epoch_loss set_epoch_losses stdout epoch_losses epoch_loss].
  split; [done|]. split; [done|]. split; [done|].
  exists steps. split; [done|]. split; [done|].
  by rewrite Hlog.
Qed.

(** Epochs that all return. *)
Lemma for_each_epochs_ok (epochs : list nat) (s : Env) :
  (forall e, loader e <> []) ->
  outcome (for_each epochs epoch s) = inr tt ->
  stdout (final (for_each epochs epoch s)) = stdout s ++ reports epochs s /\
  length (reports epochs s) = length epochs /\
  (forall i e, epochs !! i = Some e ->
     let s_e := final (for_each (take i epochs) epoch s) in
     reports epochs s !! i = Some (EpochLine e (reported (loader e) s_e)) /\
     length (losses_of (loader e) 0 (set_epoch_loss s_zero s_e))
       = length (loader e)) /\
  exists recs,
    Forall2 (fun e steps => length steps = length (loader e) /\
                            Forall minibatch_record steps) epochs recs /\
    log (for_each epochs epoch s) = concat (map epoch_calls recs).
Proof.
  intros Hload. revert s. induction epochs as [|e rest IH]; intros s.
  - cbn. intros _. rewrite app_nil_r. repeat split; try done.
    exists []. split; [constructor|done].
  - cbn [for_each epoch_reports].
    destruct (outcome (epoch e s)) as [err|[]] eqn:He.
    { by rewrite (run_bind_raise _ _ _ _ He). }
    rewrite (run_bind_ok _ _ _ _ He). cbn [outcome final log]. intros Hrest.
    pose proof He as He'.
    apply train_epoch_ok in He as (Hso & _ & Hcount & steps & Hn & Hall & Hlog);
      [|apply Hload].
    apply IH in Hrest as (Hso' & Hlen' & Hnth & recs & Hrecs & Hlog').
    rewrite Hso', Hso, Hlog, Hlog'. cbn [length]. rewrite Hlen'.
    split; [by rewrite <- app_assoc|]. split; [done|]. split.
    + intros [|i] e' Hi.
      * cbn in Hi. injection Hi as <-. by split.
      * cbn in Hi. apply Hnth in Hi as (Hl & Hc).
        cbn [take for_each]. by rewrite (run_bind_ok _ _ _ _ He').
    + exists (steps :: recs). split; [by constructor|done].
Qed.

Ltac propagate :=
  repeat first
    [ apply propagates_ret | apply propagates_get | apply propagates_modify
    | apply propagates_call | apply collate_propagates
    | apply propagates_on_object; apply Classifier_forward_propagates
    | apply propagates_bind; [|intros ? ?] ].

Lemma train_step_propagates (bg : DGLGraph) (label : list Z) (s : Env) :
  propagates (step bg label s).
Proof. unfold train_step, call_pure. propagate. Qed.

Lemma loop_body_propagates (it : nat) (group : list sample) (s : Env) :
  propagates (body it group s).
Proof.
  unfold loop_body.
  apply propagates_bind; [apply collate_propagates|]. intros b s1.
  apply propagates_bind; [apply propagates_modify|]. intros _ s2.
  apply propagates_bind; [apply train_step_propagates|]. intros loss s3.
  propagate.
Qed.

Lemma train_epoch_propagates (e : nat) (s : Env) : propagates (epoch e s).
Proof.
  unfold train_epoch, call_pure.
  apply propagates_bind; [apply propagates_modify|]. intros _ s1.
  apply propagates_bind.
  { apply for_enumerate_propagates. intros. apply loop_body_propagates. }
  intros _ s2. propagate.
Qed.

Lemma training_propagates (n : nat) (s : Env) : propagates (train n s).
Proof.
  unfold training.
  apply propagates_bind; [apply propagates_modify|]. intros _ s1.
  apply propagates_for_each. intros. apply train_epoch_propagates.
Qed.

Lemma evaluation_propagates (testset : list sample) (s : Env) :
  propagates (eval testset s).
Proof.
  unfold evaluation, call_pure.
  apply propagates_bind; [apply propagates_call|]. intros [test_X test_Y] s1.
  propagate.
Qed.

End CellFacts.

(** ** Batching *)

(** Claim C3.  Whatever the samples, [collate] calls nothing but the
    unpacking, [dgl.batch] and [torch.tensor], each at most once and in
    that order; and when it returns, the graph it returns is the one
    [dgl.batch] returned on the list of the samples' graphs, paired with
    the tensor of their labels. *)
Theorem C3_collate_delegates_to_dgl_batch `{Scalar} `{!Backend} {St : Type}
    (samples : list sample) (s : St) :
  map fst (log (collate samples s)) `prefix_of` [c_unpack; c_dgl_batch; c_torch_tensor] /\
  forall bg t,
    outcome (collate samples s) = inr (bg, t) ->
    log (collate samples s) = [ok c_unpack; ok c_dgl_batch; ok c_torch_tensor] /\
    dgl_batch (map fst samples) = inr bg /\
    t = map snd samples /\
    final (collate samples s) = s.
Proof.
  rewrite collate_run. unfold unzip_samples.
  destruct samples as [|p samples].
  { split; [by eexists|]. by intros. }
  set (graphs := map fst (p :: samples)). set (labels := map snd (p :: samples)).
  destruct (dgl_batch graphs) as [e|bg] eqn:Hb.
  { split; [by eexists|]. by intros. }
  destruct (torch_tensor labels) as [e|t] eqn:Ht.
  { split; [by eexists|]. by intros. }
  split; [by exists []|].
  intros bg' t' [= <- <-]. apply torch_tensor_ok in Ht. by subst t.
Qed.

Lemma C3_witness :
  (exists bg t, outcome (collate (St:=unit) ex_samples tt) = inr (bg, t)) /\
  dgl_batch (map fst ex_samples)
    = inr (MkGraph 5
             [(0, 0); (1, 1); (2, 2); (0, 1); (1, 0); (1, 2); (2, 1);
              (3, 3); (4, 4); (3, 4); (4, 3)] ∅ [3; 2]).
Proof.
  assert (E : outcome (collate (St:=unit) ex_samples tt)
              = inr (MkGraph 5
                       [(0, 0); (1, 1); (2, 2); (0, 1); (1, 0); (1, 2); (2, 1);
                        (3, 3); (4, 4); (3, 4); (4, 3)] ∅ [3; 2], [1%Z; 0%Z]))
    by (vm_compute; reflexivity).
  split; [by eauto|].
  exact (proj1 (proj2 (proj2 (C3_collate_delegates_to_dgl_batch ex_samples tt) _ _ E))).
Defined.




(** ** Claims about the cells *)

Section CellClaims.
Context `{Scalar} `{!Backend} {Grads OptState : Type}.
Variable loss_func : Tensor -> list Z -> result num.
Variable zero_grad : Grads -> Grads.
Variable backward : Classifier -> DGLGraph -> list Z -> Grads -> result Grads.
Variable adam_step : OptState -> Classifier -> Grads -> result (OptState * Classifier).
Variable softmax : Tensor -> result Tensor.
Variable multinomial : Tensor -> result (list Z).
Variable max_index : Tensor -> result (list Z).
Variable trainset : list sample.
Variable shuffle : nat -> list sample -> list sample.

Local Abbreviation step := (train_step loss_func zero_grad backward adam_step).
Local Abbreviation epoch :=
  (train_epoch loss_func zero_grad backward adam_step trainset shuffle).
Local Abbreviation train :=
  (training loss_func zero_grad backward adam_step trainset shuffle).
Local Abbreviation eval :=
  (evaluation (Grads:=Grads) (OptState:=OptState) softmax multinomial max_index).
Local Abbreviation loader := (data_loader trainset shuffle).
Local Abbreviation Env := (@Env _ Grads OptState).
Local Abbreviation losses_of := (step_losses loss_func zero_grad backward adam_step).
Local Abbreviation reported :=
  (reported_loss loss_func zero_grad backward adam_step).
Local Abbreviation reports :=
  (epoch_reports loss_func zero_grad backward adam_step trainset shuffle).

(** Claim C8.  In [collate], in a layer, in the classifier, in the
    training loop and in the evaluation, an exception raised by any
    library call is the outcome of the function and the last thing the
    function did, and no exception comes out that a call did not raise.
    Nothing is restored: [collate] touches no state, and a layer that
    fails leaves the graph as the failing call left it. *)
Theorem C8_exceptions_propagate :
  (forall (St : Type) (samples : list sample) (s : St),
     exception_transparent (collate samples s) /\ final (collate samples s) = s) /\
  (forall self feature g, exception_transparent (GCN_forward self feature g)) /\
  (forall self g, exception_transparent (Classifier_forward self g)) /\
  (forall n (s : Env), exception_transparent (train n s)) /\
  (forall testset (s : Env), exception_transparent (eval testset s)) /\
  (forall self feature g,
     let r := GCN_forward self feature g in
     (forall g1 e, set_ndata "h" feature g = (g1, inl e) ->
        final r = g1 /\ outcome r = inl e) /\
     (forall g1 g2 e,
        set_ndata "h" feature g = (g1, inr tt) ->
        update_all msg reduce g1 = (g2, inl e) ->
        final r = g2 /\ outcome r = inl e) /\
     (forall g1 g2 g3 e,
        set_ndata "h" feature g = (g1, inr tt) ->
        update_all msg reduce g1 = (g2, inr tt) ->
        apply_nodes (NodeApplyModule_forward (apply_mod self)) g2 = (g3, inl e) ->
        final r = g3 /\ outcome r = inl e) /\
     (forall g1 g2 g3 g4 e,
        set_ndata "h" feature g = (g1, inr tt) ->
        update_all msg reduce g1 = (g2, inr tt) ->
        apply_nodes (NodeApplyModule_forward (apply_mod self)) g2 = (g3, inr tt) ->
        pop_ndata "h" g3 = (g4, inl e) ->
        final r = g4 /\ outcome r = inl e)).
Proof.
  split.
  { intros St samples s. split; [apply propagates_transparent, collate_propagates|].
    rewrite collate_run.
    destruct (unzip_samples samples) as [e|[graphs labels]]; [done|].
    destruct (dgl_batch graphs) as [e|bg]; [done|].
    by destruct (torch_tensor labels). }
  split. { intros. apply propagates_transparent, GCN_forward_propagates. }
  split. { intros. apply propagates_transparent, Classifier_forward_propagates. }
  split. { intros. apply propagates_transparent, training_propagates. }
  split. { intros. apply propagates_transparent, evaluation_propagates. }
  intros self feature g r. subst r. unfold GCN_forward, bind, call.
  repeat split; intros; repeat (match goal with E : _ = (_, _) |- _ => rewrite E; clear E end; cbn); done.
Qed.


(** Claim C6.  A training run that returns printed exactly one line per
    epoch, in order, the line of epoch [e] carrying [e] and the loss
    reported for it: the sum of the loss values of the steps of that
    epoch, run from the state the first [e] epochs left, divided by
    their number, which is the number of mini-batches the loader
    produced for the epoch. *)
Theorem C6_one_line_per_epoch (n : nat) (s : Env) :
  trainset <> [] ->
  (forall e l, length (shuffle e l) = length l) ->
  outcome (train n s) = inr tt ->
  let lines := reports (seq 0 n) (set_epoch_losses [] s) in
  stdout (final (train n s)) = stdout s ++ lines /\
  length lines = n /\
  forall e, e < n ->
    let s_e := final (train e s) in
    let losses := losses_of (loader e) 0 (set_epoch_loss s_zero s_e) in
    lines !! e =
      Some (EpochLine e (s_div (fold_left s_add losses s_zero)
                               (s_of_nat (length losses)))) /\
    length losses = length (loader e) /\
    0 < length (loader e).
Proof.
  intros Hne Hlen. unfold training.
  rewrite (run_bind_ok _ _ s tt) by reflexivity. cbn [outcome log final modify].
  intros Hout. cbv zeta.
  assert (Hload : forall e, loader e <> []).
  { intros e. by apply data_loader_nonempty. }
  apply for_each_epochs_ok in Hout as (Hso & Hlines & Hnth & _); [|done].
  split; [done|]. split; [by rewrite length_seq in Hlines|].
  intros e He.
  destruct (Hnth e e) as (Hl & Hc).
  { apply lookup_seq. lia. }
  rewrite take_seq, Nat.min_l in Hl, Hc by lia.
  change (final (for_each (seq 0 e) epoch (set_epoch_losses [] s)))
    with (final (train e s)) in Hl, Hc.
  split; [exact Hl|]. split; [exact Hc|].
  specialize (Hload e). destruct (loader e); [done|]. cbn. lia.
Qed.

Lemma count_hits (a b : list Z) :
  (forall x y : Z, x ∈ a -> s_eqb (s_of_Z x) (s_of_Z y) = true <-> x = y) ->
  length (filter (fun p => s_eqb (fst p) (snd p) = true)
                 (zip (map s_of_Z a) (map s_of_Z b)))
  = hits a b.
Proof.
  unfold hits. revert b.
  induction a as [|x a IH]; intros [|y b] Hexact; try done.
  cbn [map zip zip_with]. rewrite !filter_cons. cbn [fst snd].
  assert (Hx : s_eqb (s_of_Z x) (s_of_Z y) = true <-> x = y).
  { apply Hexact. by left. }
  assert (Ha : forall x' y', x' ∈ a ->
                 s_eqb (s_of_Z x') (s_of_Z y') = true <-> x' = y').
  { intros x' y' Hin. apply Hexact. by right. }
  destruct (decide (x = y)) as [Hxy|Hxy].
  - rewrite decide_True by by apply Hx. cbn [length]. by rewrite <- IH.
  - rewrite decide_False by (by rewrite Hx). by rewrite <- IH.
Qed.

Lemma eq_sum_hits (a b : list Z) (k : nat) :
  (forall x y : Z, x ∈ a -> s_eqb (s_of_Z x) (s_of_Z y) = true <-> x = y) ->
  length b = length a ->
  eq_sum (map s_of_Z a) (map s_of_Z b) = inr k ->
  k = hits a b.
Proof.
  intros Hexact Hlen. unfold eq_sum. rewrite !length_map, Hlen, Nat.eqb_refl.
  intros [= <-]. by apply count_hits.
Qed.

(** Claim C7.  An evaluation that returns printed exactly two lines.
    With [N] test graphs, the first reports [hits / N * 100] where
    [hits] counts the graphs whose class drawn by [torch.multinomial]
    from the softmax of the model's logits equals the true label, the
    second the same with the index of the largest probability in place
    of the drawn class.  (Labels and classes are compared as floats:
    the comparison is that of the integers as long as the conversion of
    the test labels is exact, which is the first hypothesis; it holds
    for class indices.) *)
Theorem C7_two_accuracies (testset : list sample) (s : Env) :
  (forall x y : Z, x ∈ map snd testset ->
     s_eqb (s_of_Z x) (s_of_Z y) = true <-> x = y) ->
  outcome (eval testset s) = inr tt ->
  exists bg logits probs sampled argm a1 a2,
    dgl_batch (map fst testset) = inr bg /\
    outcome (Classifier_forward (model s) bg) = inr logits /\
    softmax logits = inr probs /\
    multinomial probs = inr sampled /\
    max_index probs = inr argm /\
    stdout (final (eval testset s))
      = stdout s ++ [SampledAccuracy a1; ArgmaxAccuracy a2] /\
    0 < length testset /\
    (length sampled = length testset ->
     a1 = percent_of (hits (map snd testset) sampled) (length testset)) /\
    (length argm = length testset ->
     a2 = percent_of (hits (map snd testset) argm) (length testset)).
Proof.
  intros Hexact Hout. unfold evaluation in *.
  destruct testset as [|p testset].
  { by rewrite (run_bind_raise _ _ s
                 (ValueError "not enough values to unpack (expected 2, got 0)"))
      in Hout by reflexivity. }
  rewrite (run_bind_ok _ _ s (map fst (p :: testset), map snd (p :: testset))) in *
    by reflexivity.
  cbn [outcome final log call_pure call unzip_samples] in *.
  set (graphs := map fst (p :: testset)) in *.
  set (labels := map snd (p :: testset)) in *.
  destruct (dgl_batch graphs) as [e|bg] eqn:Hb.
  { by rewrite (run_bind_raise _ _ s e) in Hout by (by rewrite run_call_pure). }
  rewrite (run_bind_ok _ _ s bg) in * by (by rewrite run_call_pure).
  cbn [outcome final log call_pure call] in *.
  destruct (torch_tensor labels) as [e|t] eqn:Ht.
  { by rewrite (run_bind_raise _ _ s e) in Hout by (by rewrite run_call_pure). }
  rewrite (run_bind_ok _ _ s t) in * by (by rewrite run_call_pure).
  cbn [outcome final log call_pure call] in *.
  apply torch_tensor_ok in Ht. subst t.
  rewrite (run_bind_ok _ _ s s) in * by reflexivity.
  cbn [outcome final log get] in *.
  destruct (outcome (Classifier_forward (model s) bg)) as [e|logits] eqn:Hf.
  { by rewrite (run_bind_raise _ _ s e) in Hout
      by (unfold on_object; cbn [outcome]; by rewrite Hf). }
  rewrite (run_bind_ok _ _ s (final (Classifier_forward (model s) bg), logits)) in *
    by (unfold on_object; cbn [outcome]; by rewrite Hf).
  cbn [outcome final log on_object fst snd] in *.
  destruct (softmax logits) as [e|probs] eqn:Hs.
  { by rewrite (run_bind_raise _ _ s e) in Hout by (by rewrite run_call_pure). }
  rewrite (run_bind_ok _ _ s probs) in * by (by rewrite run_call_pure).
  cbn [outcome final log call_pure call] in *.
  destruct (multinomial probs) as [e|sampled] eqn:Hm.
  { by rewrite (run_bind_raise _ _ s e) in Hout by (by rewrite run_call_pure). }
  rewrite (run_bind_ok _ _ s sampled) in * by (by rewrite run_call_pure).
  cbn [outcome final log call_pure call] in *.
  destruct (max_index probs) as [e|argm] eqn:Ha.
  { by rewrite (run_bind_raise _ _ s e) in Hout by (by rewrite run_call_pure). }
  rewrite (run_bind_ok _ _ s argm) in * by (by rewrite run_call_pure).
  cbn [outcome final log call_pure call] in *.
  destruct (eq_sum (map s_of_Z labels) (map s_of_Z sampled)) as [e|k1] eqn:Hk1.
  { by rewrite (run_bind_raise _ _ s e) in Hout by (by rewrite run_call_pure). }
  rewrite (run_bind_ok _ _ s k1) in * by (by rewrite run_call_pure).
  cbn [outcome final log call_pure call] in *.
  destruct (percentage k1 (length (map s_of_Z labels))) as [e|a1] eqn:Ha1.
  { by rewrite (run_bind_raise _ _ s e) in Hout by (by rewrite run_call_pure). }
  rewrite (run_bind_ok _ _ s a1) in * by (by rewrite run_call_pure).
  cbn [outcome final log call_pure call] in *.
  rewrite (run_bind_ok _ _ s tt) in * by reflexivity.
  cbn [outcome final log call fst snd] in *.
  set (s1 := print (SampledAccuracy a1) s) in *.
  destruct (eq_sum (map s_of_Z labels) (map s_of_Z argm)) as [e|k2] eqn:Hk2.
  { by rewrite (run_bind_raise _ _ s1 e) in Hout by (by rewrite run_call_pure). }
  rewrite (run_bind_ok _ _ s1 k2) in * by (by rewrite run_call_pure).
  cbn [outcome final log call_pure call] in *.
  destruct (percentage k2 (length (map s_of_Z labels))) as [e|a2] eqn:Ha2.
  { by rewrite (run_bind_raise _ _ s1 e) in Hout by (by rewrite run_call_pure). }
  rewrite (run_bind_ok _ _ s1 a2) in * by (by rewrite run_call_pure).
  cbn [outcome final log call_pure call fst snd] in *.
  subst s1. cbn [print stdout]. clear Hout.
  generalize I.
  intros _. exists bg, logits, probs, sampled, argm, a1, a2.
  repeat (split; [done|]).
  split; [by rewrite <- app_assoc|].
  split; [cbn; lia|].
  assert (Hn : length labels = S (length testset)).
  { unfold labels. by rewrite length_map. }
  rewrite length_map, Hn in Ha1, Ha2. unfold percentage in Ha1, Ha2.
  cbn [Nat.eqb] in Ha1, Ha2.
  injection Ha1 as <-. injection Ha2 as <-.
  split; intros Hl.
  - apply eq_sum_hits in Hk1; [by subst k1|done|by rewrite Hn].
  - apply eq_sum_hits in Hk2; [by subst k2|done|by rewrite Hn].
Qed.

End CellClaims.

Lemma ex_shuffle_length (e : nat) (l : list sample) :
  length (ex_shuffle e l) = length l.
Proof. unfold ex_shuffle. destruct (Nat.even e); [done|apply length_rev]. Qed.

Lemma Q_exact (x y : Z) : s_eqb (s_of_Z x) (s_of_Z y) = true <-> x = y.
Proof.
  cbn [s_eqb s_of_Z Q_scalar]. rewrite Qeq_bool_iff. split.
  - intros E. unfold Qeq in E. cbn in E. lia.
  - by intros ->.
Qed.

Lemma C8_witness :
  outcome (GCN_forward ex_layer [[1%Q]] ex_path)
    = inl (DGLError "Expect number of features to match number of nodes") /\
  last (log (GCN_forward ex_layer [[1%Q]] ex_path))
    = Some (c_set_ndata "h",
            Some (DGLError "Expect number of features to match number of nodes")).
Proof.
  refine (proj1 (proj1 (proj2
            (C8_exceptions_propagate ex_loss ex_zero_grad ex_backward ex_adam_step
               ex_softmax ex_multinomial ex_max_index ex_trainset ex_shuffle))
            ex_layer [[1%Q]] ex_path) _ _ _).
  vm_compute. apply list_elem_of_here.
Defined.


Lemma C6_witness :
  stdout (final (training ex_loss ex_zero_grad ex_backward ex_adam_step
                   ex_trainset ex_shuffle 2 ex_env))
    = stdout ex_env
      ++ epoch_reports ex_loss ex_zero_grad ex_backward ex_adam_step
           ex_trainset ex_shuffle (seq 0 2) (set_epoch_losses [] ex_env).
Proof.
  refine (proj1 (C6_one_line_per_epoch ex_loss ex_zero_grad ex_backward ex_adam_step
                   ex_trainset ex_shuffle 2 ex_env _ _ _)).
  - done.
  - apply ex_shuffle_length.
  - vm_compute; reflexivity.
Defined.

Lemma C7_witness :
  stdout (final (evaluation (Grads:=nat) (OptState:=nat)
                   ex_softmax ex_multinomial ex_max_index ex_samples ex_env))
    = [SampledAccuracy 50%Q; ArgmaxAccuracy 50%Q] /\
  exists a1 a2,
    stdout (final (evaluation (Grads:=nat) (OptState:=nat)
                     ex_softmax ex_multinomial ex_max_index ex_samples ex_env))
      = stdout ex_env ++ [SampledAccuracy a1; ArgmaxAccuracy a2].
Proof.
  split; [vm_compute; reflexivity|].
  destruct (C7_two_accuracies (Grads:=nat) (OptState:=nat)
              ex_softmax ex_multinomial ex_max_index ex_samples ex_env
              (fun x y _ => Q_exact x y))
    as (bg & logits & probs & sampled & argm & a1 & a2
        & _ & _ & _ & _ & _ & Hso & _).
  { vm_compute; reflexivity. }
  exists a1, a2. exact Hso.
Defined.

(** ** What a forward pass and a training step leave behind *)

(** Claim C2, as stated, fails: the forward pass of the model on a batch
    of two graphs without node data returns and leaves node data on the
    batched graph. *)
Lemma C2_counterexample :
  dgl_batch [ex_path; ex_pair] = inr ex_batch /\
  (exists logits, outcome (Classifier_forward ex_model ex_batch) = inr logits) /\
  ndata (final (Classifier_forward ex_model ex_batch)) <> ndata ex_batch.
Proof.
  split; [vm_compute; reflexivity|]. split.
  - eexists. vm_compute. reflexivity.
  - intros E. apply (f_equal (fun nd => nd !! "h")) in E.
    vm_compute in E. discriminate E.
Qed.

(** Claim C2, amended.  A forward pass of the model that returns has
    written the graph handed to it: the node data is the one from before
    the call with ['h'] set to the node features of the last layer; every
    other key, the nodes, the edges and the batch sizes are unchanged.  A
    training step leaves the notebook's other variables alone and changes
    the model's parameters only through the optimizer step, on the
    gradients of that step. *)
Theorem C2_forward_pass_overwrites_h `{Scalar} {Grads OptState : Type}
    (loss_func : Tensor -> list Z -> result num)
    (zero_grad : Grads -> Grads)
    (backward : Classifier -> DGLGraph -> list Z -> Grads -> result Grads)
    (adam_step : OptState -> Classifier -> Grads -> result (OptState * Classifier)) :
  (forall self g logits,
     outcome (Classifier_forward self g) = inr logits ->
     let g' := final (Classifier_forward self g) in
     ndata g' =
       <[ "h" := fold_left (fun x conv => gcn_layer_spec conv g x) (layers self)
                           (degree_column g) ]> (ndata g) /\
     (forall k, k <> "h" -> ndata g' !! k = ndata g !! k) /\
     num_nodes g' = num_nodes g /\
     edges g' = edges g /\
     batch_num_nodes g' = batch_num_nodes g) /\
  (forall bg label (s : @Env _ Grads OptState),
     let r := train_step loss_func zero_grad backward adam_step bg label s in
     epoch_loss (final r) = epoch_loss s /\
     iter (final r) = iter s /\
     epoch_losses (final r) = epoch_losses s /\
     stdout (final r) = stdout s /\
     (model (final r) = model s \/
      exists loss gr o,
        outcome r = inr loss /\
        backward (model s) bg label (zero_grad (grads s)) = inr gr /\
        adam_step (optimizer s) (model s) gr = inr (o, model (final r)))).
Proof.
  split.
  - intros self g logits Hout.
    apply Classifier_forward_ok in Hout as (_ & Hfin & _).
    cbv zeta. rewrite Hfin. cbn [ndata num_nodes edges batch_num_nodes with_ndata].
    repeat split; try done.
    intros k Hk. by rewrite lookup_insert_ne.
  - intros bg label s. cbv zeta. rewrite train_step_run. cbv zeta.
    destruct (outcome (Classifier_forward (model s) bg)); [by repeat split; try left|].
    destruct (loss_func _ label) as [e|loss]; [by repeat split; try left|].
    destruct (backward _ bg label _) as [e|gr] eqn:Hb; [by repeat split; try left|].
    destruct (adam_step _ _ gr) as [e|[o m]] eqn:Ha; [by repeat split; try left|].
    cbn. repeat split; try done.
    right. by exists loss, gr, o.
Qed.

Lemma C2_witness :
  ndata (final (Classifier_forward ex_model ex_tagged)) !! "x" = ndata ex_tagged !! "x" /\
  edges (final (Classifier_forward ex_model ex_tagged)) = edges ex_tagged.
Proof.
  destruct (proj1 (C2_forward_pass_overwrites_h ex_loss ex_zero_grad ex_backward
                     ex_adam_step) ex_model ex_tagged
              [[3%Q; 2%Q]])
    as (_ & Hk & _ & He & _).
  { vm_compute; reflexivity. }
  split; [by apply Hk|exact He].
Defined.

(** * Further properties of the notebook's functions *)

Section ShapeFacts.
Context `{Scalar}.

Lemma sum_rows_width (w : nat) (r : list num) (rs : list (list num)) :
  length r = w -> Forall (fun x => length x = w) rs ->
  length (sum_rows (r :: rs)) = w.
Proof.
  cbn [sum_rows]. revert r. induction rs as [|x rs IH]; intros r Hr Hrs; [done|].
  apply Forall_cons in Hrs as [Hx Hrs]. cbn [fold_left].
  apply IH; [|done]. rewrite length_zip_with. lia.
Qed.

Lemma mean_rows_width (w : nat) (rows : list (list num)) :
  rows <> [] -> Forall (fun x => length x = w) rows ->
  length (mean_rows rows) = w.
Proof.
  intros Hne Hrows. unfold mean_rows. rewrite length_map.
  destruct rows as [|r rs]; [done|].
  apply Forall_cons in Hrows as [Hr Hrs]. by apply sum_rows_width.
Qed.

Lemma in_sources_lt (g : DGLGraph) (v u : nat) :
  wf_edges g -> u ∈ in_sources g v -> u < num_nodes g.
Proof.
  unfold wf_edges, in_sources. intros Hwf Hu.
  apply list_elem_of_fmap in Hu as ([a b] & -> & Hin).
  apply list_elem_of_filter in Hin as [_ Hin].
  rewrite Forall_forall in Hwf. apply Hwf in Hin. cbn in *. lia.
Qed.

Lemma rows_of_rectangular (w : nat) (col : Tensor) (ids : list nat) :
  rectangular w col -> Forall (fun u => u < length col) ids ->
  rectangular w (rows_of col ids).
Proof.
  unfold rectangular, rows_of. intros Hcol Hids.
  apply Forall_fmap. eapply Forall_impl; [exact Hids|]. cbn. intros u Hu.
  destruct (lookup_lt_is_Some_2 col u Hu) as [row Hrow].
  rewrite (list_lookup_total_correct _ _ _ Hrow).
  rewrite Forall_lookup in Hcol. by eapply Hcol.
Qed.

(** The aggregated features have the shape of the features. *)
Lemma mean_of_received_shape (w : nat) (g : DGLGraph) (feature : Tensor) :
  wf_edges g -> length feature = num_nodes g -> rectangular w feature ->
  length (mean_of_received g feature) = num_nodes g /\
  rectangular w (mean_of_received g feature).
Proof.
  intros Hwf Hlen Hrect. unfold mean_of_received.
  split; [by rewrite length_imap|].
  unfold rectangular. apply Forall_lookup. intros v x Hx.
  rewrite list_lookup_imap in Hx.
  destruct (feature !! v) as [row|] eqn:Hrow; [|done].
  cbn -[mean_rows received any_received] in Hx.
  assert (Hw : length row = w).
  { unfold rectangular in Hrect. rewrite Forall_lookup in Hrect. by eapply Hrect. }
  rewrite received_sources in Hx.
  destruct (rows_of feature (in_sources g v)) as [|m ms] eqn:Hr.
  - destruct (any_received g feature); injection Hx as <-; [|done].
    unfold zero_like. by rewrite length_map.
  - injection Hx as <-. apply mean_rows_width; [done|].
    rewrite <- Hr. apply rows_of_rectangular; [done|].
    apply Forall_forall. intros u Hu. rewrite Hlen. by eapply in_sources_lt.
Qed.

Lemma Linear_forward_rect (l : Linear) (x : Tensor) :
  rectangular (in_features l) x ->
  Linear_forward l x = inr (map (affine l) x).
Proof.
  intros Hx. unfold Linear_forward.
  replace (forallb _ x) with true; [done|].
  symmetry. apply forallb_forall. intros r Hr.
  unfold rectangular in Hx. rewrite Forall_forall in Hx.
  apply Nat.eqb_eq, Hx. by apply list_elem_of_In.
Qed.

Lemma affine_width (l : Linear) (r : list num) :
  wf_linear l -> length (affine l r) = out_features l.
Proof.
  intros [Hw Hb]. unfold affine. rewrite length_zip_with, length_map. lia.
Qed.

Lemma F_relu_keeps_shape : keeps_shape F_relu.
Proof.
  intros t. unfold F_relu. split; [by rewrite length_map|].
  intros w Ht. unfold rectangular in *. apply Forall_fmap.
  eapply Forall_impl; [exact Ht|]. cbn. intros r Hr. by rewrite length_map.
Qed.

Lemma GCN_forward_outcome (self : GCN) (feature : Tensor) (g : DGLGraph) :
  outcome (GCN_forward self feature g) = layer_outcome self g feature.
Proof.
  rewrite GCN_forward_run. unfold layer_outcome.
  destruct (length feature =? num_nodes g); [|done].
  destruct (Linear_forward _ _) as [e|y]; [done|].
  by destruct (length (activation (apply_mod self) y) =? num_nodes g).
Qed.

Lemma GCN_forward_final (self : GCN) (feature : Tensor) (g : DGLGraph) :
  exists nd, final (GCN_forward self feature g) = with_ndata g nd.
Proof.
  rewrite GCN_forward_run.
  destruct (length feature =? num_nodes g);
    [|exists (ndata g); by rewrite with_ndata_id].
  destruct (Linear_forward _ _) as [e|y]; [by eexists|].
  destruct (length (activation (apply_mod self) y) =? num_nodes g); by eexists.
Qed.

Lemma layers_outcome_with_ndata (convs : list GCN) (g : DGLGraph)
    (nd : gmap string Tensor) (h : Tensor) :
  layers_outcome convs (with_ndata g nd) h = layers_outcome convs g h.
Proof.
  revert h. induction convs as [|c rest IH]; intros h; [done|].
  cbn [layers_outcome].
  change (layer_outcome c (with_ndata g nd) h) with (layer_outcome c g h).
  destruct (layer_outcome c g h); [done|apply IH].
Qed.

Lemma for_layers_outcome (convs : list GCN) (h : Tensor) (g : DGLGraph) :
  outcome (for_layers convs h g) = layers_outcome convs g h /\
  exists nd, final (for_layers convs h g) = with_ndata g nd.
Proof.
  revert h g. induction convs as [|c rest IH]; intros h g.
  - cbn. split; [done|]. exists (ndata g). by rewrite with_ndata_id.
  - cbn [for_layers layers_outcome]. rewrite <- GCN_forward_outcome.
    destruct (GCN_forward_final c h g) as [nd Hfin].
    destruct (outcome (GCN_forward c h g)) as [e|h'] eqn:Hc.
    + rewrite (run_bind_raise _ _ _ _ Hc). cbn [outcome final]. split; [done|].
      by exists nd.
    + rewrite (run_bind_ok _ _ _ _ Hc). cbn [outcome final]. rewrite Hfin.
      destruct (IH h' (with_ndata g nd)) as [Ho [nd' Hf]].
      rewrite Ho, Hf, layers_outcome_with_ndata. split; [done|]. by exists nd'.
Qed.

(** The outcome of a forward pass, and the fact that it never changes
    the nodes, the edges or the batch sizes. *)
Lemma Classifier_forward_outcome (self : Classifier) (g : DGLGraph) :
  outcome (Classifier_forward self g) = classifier_outcome self g /\
  exists nd, final (Classifier_forward self g) = with_ndata g nd.
Proof.
  unfold Classifier_forward, classifier_outcome.
  rewrite (run_bind_ok _ _ g (map (in_degree g) (seq 0 (num_nodes g))))
    by reflexivity.
  cbn [final log outcome call in_degrees dgl m_in_degrees].
  rewrite degree_column_eq.
  destruct (for_layers_outcome (layers self) (degree_column g) g) as [Ho [nd Hf]].
  rewrite <- Ho.
  destruct (outcome (for_layers (layers self) (degree_column g) g))
    as [e|h] eqn:Hl.
  { rewrite (run_bind_raise _ _ _ _ Hl). cbn [outcome final].
    split; [done|]. by exists nd. }
  rewrite (run_bind_ok _ _ _ _ Hl). cbn [final log outcome]. rewrite Hf.
  unfold bind. rewrite !run_call.
  cbn [set_ndata mean_nodes dgl]. unfold m_set_ndata.
  cbn [num_nodes with_ndata].
  destruct (length h =? num_nodes g).
  2:{ cbn [fst snd final outcome]. split; [done|]. by exists nd. }
  cbn [fst snd final log outcome]. unfold m_mean_nodes.
  cbn [ndata with_ndata]. rewrite lookup_insert_eq.
  cbn [fst snd final log outcome batch_num_nodes with_ndata call_pure call].
  fold (readout_spec g h).
  destruct (Linear_forward (classify self) (readout_spec g h)) as [e|y];
    cbn [fst snd final outcome]; (split; [done|]); by eexists.
Qed.

Lemma layer_outcome_shape (self : GCN) (feature : Tensor) (g : DGLGraph) :
  wf_edges g ->
  length feature = num_nodes g ->
  rectangular (in_features (linear (apply_mod self))) feature ->
  wf_linear (linear (apply_mod self)) ->
  keeps_shape (activation (apply_mod self)) ->
  exists out,
    layer_outcome self g feature = inr out /\
    length out = num_nodes g /\
    rectangular (out_features (linear (apply_mod self))) out.
Proof.
  intros Hwf Hlen Hrect Hlin Hact.
  destruct (mean_of_received_shape _ g feature Hwf Hlen Hrect) as [Hml Hmr].
  unfold layer_outcome.
  rewrite Hlen, Nat.eqb_refl, (Linear_forward_rect _ _ Hmr).
  destruct (Hact (map (affine (linear (apply_mod self)))
                      (mean_of_received g feature))) as [Hal Har].
  rewrite Hal, length_map, Hml, Nat.eqb_refl.
  eexists. split; [done|]. split; [by rewrite Hal, length_map|].
  apply Har. unfold rectangular. apply Forall_fmap, Forall_forall.
  intros r _. cbn. by apply affine_width.
Qed.

(** Property X1. A layer on inputs of the right shape returns, and its
    result has one row per node and [out_feats] columns: given a graph whose
    edges join nodes of the graph, one feature row of [in_feats] numbers per
    node, a linear map with [out_feats] weight rows and biases, and an
    activation that works entry by entry. *)
Theorem GCN_forward_shape (self : GCN) (feature : Tensor) (g : DGLGraph) :
  wf_edges g ->
  length feature = num_nodes g ->
  rectangular (in_features (linear (apply_mod self))) feature ->
  wf_linear (linear (apply_mod self)) ->
  keeps_shape (activation (apply_mod self)) ->
  exists out,
    outcome (GCN_forward self feature g) = inr out /\
    length out = num_nodes g /\
    rectangular (out_features (linear (apply_mod self))) out.
Proof.
  intros. rewrite GCN_forward_outcome. by apply layer_outcome_shape.
Qed.

Lemma degree_column_shape (g : DGLGraph) :
  length (degree_column g) = num_nodes g /\ rectangular 1 (degree_column g).
Proof.
  unfold degree_column. split; [by rewrite length_map, length_seq|].
  unfold rectangular. by apply Forall_fmap, Forall_forall.
Qed.

Lemma segments_shape (w : nat) (sizes : list nat) (t : Tensor) :
  list_sum sizes <= length t ->
  Forall (fun n => 0 < n) sizes ->
  rectangular w t ->
  length (segments sizes t) = length sizes /\
  Forall (fun seg => seg <> [] /\ rectangular w seg) (segments sizes t).
Proof.
  revert t. induction sizes as [|n sizes IH]; intros t Hsum Hpos Hrect.
  - by split.
  - cbn [segments length]. change (n + list_sum sizes <= length t) in Hsum.
    apply Forall_cons in Hpos as [Hn Hpos].
    destruct (IH (drop n t)) as [Hl Hs]; [rewrite length_drop; lia|done| |].
    { by apply Forall_drop. }
    split; [by rewrite Hl|].
    apply Forall_cons. split; [|done]. split.
    + intros Hnil. apply (f_equal length) in Hnil.
      rewrite length_take in Hnil. cbn in Hnil. lia.
    + by apply Forall_take.
Qed.

Lemma readout_shape (w : nat) (g : DGLGraph) (h : Tensor) :
  wf_batch g -> length h = num_nodes g -> rectangular w h ->
  length (readout_spec g h) = length (batch_num_nodes g) /\
  rectangular w (readout_spec g h).
Proof.
  intros [Hsum Hpos] Hlen Hrect. unfold readout_spec.
  destruct (segments_shape w (batch_num_nodes g) h) as [Hl Hs]; [lia|done|done|].
  split; [by rewrite length_map|].
  unfold rectangular. apply Forall_fmap.
  eapply Forall_impl; [exact Hs|]. cbn. intros seg [Hne Hseg].
  by apply mean_rows_width.
Qed.

(** Property X2. The classifier of the notebook on a well-formed batched
    graph: it returns, with one row of [n_classes] logits per graph of the
    batch. *)
Theorem Classifier_forward_shape (hidden_dim n_classes : nat)
    (w1 : list (list num)) (b1 : list num)
    (w2 : list (list num)) (b2 : list num)
    (w3 : list (list num)) (b3 : list num) (g : DGLGraph) :
  length w1 = hidden_dim -> length b1 = hidden_dim ->
  length w2 = hidden_dim -> length b2 = hidden_dim ->
  length w3 = n_classes -> length b3 = n_classes ->
  wf_edges g -> wf_batch g ->
  exists logits,
    outcome (Classifier_forward
               (Classifier_init 1 hidden_dim n_classes w1 b1 w2 b2 w3 b3) g)
      = inr logits /\
    length logits = length (batch_num_nodes g) /\
    rectangular n_classes logits.
Proof.
  intros Hw1 Hb1 Hw2 Hb2 Hw3 Hb3 Hwf Hbatch.
  destruct (Classifier_forward_outcome
              (Classifier_init 1 hidden_dim n_classes w1 b1 w2 b2 w3 b3) g)
    as [-> _].
  unfold classifier_outcome. cbn [layers classify Classifier_init layers_outcome].
  destruct (degree_column_shape g) as [Hdl Hdr].
  destruct (layer_outcome_shape (GCN_init 1 hidden_dim F_relu w1 b1)
              (degree_column g) g) as (h1 & -> & Hl1 & Hr1);
    [done|done|done|by split|apply F_relu_keeps_shape|].
  destruct (layer_outcome_shape (GCN_init hidden_dim hidden_dim F_relu w2 b2) h1 g)
    as (h2 & -> & Hl2 & Hr2);
    [done|done|done|by split|apply F_relu_keeps_shape|].
  cbn [out_features in_features linear apply_mod GCN_init] in *.
  rewrite Hl2, Nat.eqb_refl.
  destruct (readout_shape hidden_dim g h2) as [Hrl Hrr]; [done|done|done|].
  rewrite (Linear_forward_rect (MkLinear hidden_dim n_classes w3 b3)) by done.
  eexists. split; [done|]. split; [by rewrite length_map|].
  unfold rectangular. apply Forall_fmap, Forall_forall. intros r _. cbn.
  by apply (affine_width (MkLinear hidden_dim n_classes w3 b3)).
Qed.

Lemma Linear_forward_mismatch (l : Linear) (x : Tensor) (w : nat) :
  x <> [] -> rectangular w x -> w <> in_features l ->
  Linear_forward l x = inl (RuntimeError "size mismatch").
Proof.
  intros Hne Hx Hw. unfold Linear_forward.
  destruct x as [|r x]; [done|].
  apply Forall_cons in Hx as [Hr _]. cbn [forallb].
  by rewrite (proj2 (Nat.eqb_neq (length r) (in_features l))) by lia.
Qed.

(** Property X3. A feature tensor with the wrong number of rows: the layer
    fails at its first call and the graph is untouched. *)
Theorem GCN_forward_wrong_rows (self : GCN) (feature : Tensor) (g : DGLGraph) :
  length feature <> num_nodes g ->
  outcome (GCN_forward self feature g)
    = inl (DGLError "Expect number of features to match number of nodes") /\
  final (GCN_forward self feature g) = g /\
  map fst (log (GCN_forward self feature g)) = [c_set_ndata "h"].
Proof.
  intros Hne. rewrite GCN_forward_run.
  by rewrite (proj2 (Nat.eqb_neq _ _) Hne).
Qed.

Lemma layer_fails_in_apply_nodes (self : GCN) (feature : Tensor) (g : DGLGraph)
    (w : nat) :
  wf_edges g ->
  length feature = num_nodes g ->
  0 < num_nodes g ->
  rectangular w feature ->
  w <> in_features (linear (apply_mod self)) ->
  outcome (GCN_forward self feature g) = inl (RuntimeError "size mismatch") /\
  ndata (final (GCN_forward self feature g))
    = <[ "h" := mean_of_received g feature ]> (ndata g) /\
  map fst (log (GCN_forward self feature g))
    = [c_set_ndata "h"; c_update_all; c_apply_nodes].
Proof.
  intros Hwf Hlen Hpos Hrect Hw.
  destruct (mean_of_received_shape w g feature Hwf Hlen Hrect) as [Hml Hmr].
  rewrite GCN_forward_run, Hlen, Nat.eqb_refl.
  rewrite (Linear_forward_mismatch _ _ w); [done| |done|done].
  intros Hnil. rewrite Hnil in Hml. cbn in Hml. lia.
Qed.

(** Property X4. Features of the wrong width, one row per node: the layer
    fails in [apply_nodes], at the linear map, after the aggregation has
    run. It does not reach [pop]: the graph keeps the aggregated features
    under ['h']. *)
Theorem GCN_forward_wrong_width (self : GCN) (feature : Tensor) (g : DGLGraph)
    (w : nat) :
  wf_edges g ->
  length feature = num_nodes g ->
  0 < num_nodes g ->
  rectangular w feature ->
  w <> in_features (linear (apply_mod self)) ->
  outcome (GCN_forward self feature g) = inl (RuntimeError "size mismatch") /\
  ndata (final (GCN_forward self feature g))
    = <[ "h" := mean_of_received g feature ]> (ndata g) /\
  map fst (log (GCN_forward self feature g))
    = [c_set_ndata "h"; c_update_all; c_apply_nodes].
Proof. apply layer_fails_in_apply_nodes. Qed.

(** Property X5. The features the classifier feeds its first layer are the
    in-degrees, one number per node: a first layer of any other input size
    fails on every graph that has a node, leaving ['h'] on the graph. *)
Theorem Classifier_in_dim_must_be_1 (in_dim hidden_dim n_classes : nat)
    (w1 : list (list num)) (b1 : list num)
    (w2 : list (list num)) (b2 : list num)
    (w3 : list (list num)) (b3 : list num) (g : DGLGraph) :
  in_dim <> 1 ->
  wf_edges g ->
  0 < num_nodes g ->
  let r := Classifier_forward
             (Classifier_init in_dim hidden_dim n_classes w1 b1 w2 b2 w3 b3) g in
  outcome r = inl (RuntimeError "size mismatch") /\
  ndata (final r) = <[ "h" := mean_of_received g (degree_column g) ]> (ndata g) /\
  map fst (log r) = [c_in_degrees; c_set_ndata "h"; c_update_all; c_apply_nodes].
Proof.
  intros Hin Hwf Hpos. cbv zeta.
  destruct (degree_column_shape g) as [Hdl Hdr].
  destruct (layer_fails_in_apply_nodes (GCN_init in_dim hidden_dim F_relu w1 b1)
              (degree_column g) g 1) as (Ho & Hf & Hl);
    [done|done|done|done|cbn; congruence|].
  unfold Classifier_forward.
  rewrite (run_bind_ok _ _ g (map (in_degree g) (seq 0 (num_nodes g))))
    by reflexivity.
  cbn [final log outcome call in_degrees dgl m_in_degrees].
  rewrite degree_column_eq.
  cbn [layers Classifier_init for_layers].
  rewrite (run_bind_raise _ _ g (RuntimeError "size mismatch"))
    by (by rewrite (run_bind_raise _ _ g _ Ho)).
  rewrite (run_bind_raise _ _ g _ Ho).
  cbn [final log outcome app]. split; [done|]. split; [exact Hf|].
  rewrite map_cons. cbn [fst]. f_equal. exact Hl.
Qed.

Lemma mean_of_received_local (g : DGLGraph) (f1 f2 : Tensor) (v : nat) :
  length f1 = num_nodes g -> length f2 = num_nodes g ->
  in_degree g v <> 0 ->
  Forall (fun u => f1 !!! u = f2 !!! u) (in_sources g v) ->
  mean_of_received g f1 !! v = mean_of_received g f2 !! v.
Proof.
  intros Hl1 Hl2 Hdeg Hsrc. unfold mean_of_received.
  rewrite !list_lookup_imap.
  destruct (decide (v < num_nodes g)) as [Hv|Hv].
  2:{ by rewrite (lookup_ge_None_2 f1), (lookup_ge_None_2 f2) by lia. }
  destruct (lookup_lt_is_Some_2 f1 v) as [r1 Hr1]; [lia|].
  destruct (lookup_lt_is_Some_2 f2 v) as [r2 Hr2]; [lia|].
  rewrite Hr1, Hr2. cbn -[mean_rows received any_received].
  rewrite !received_sources.
  assert (Hrows : rows_of f1 (in_sources g v) = rows_of f2 (in_sources g v)).
  { unfold rows_of. apply map_ext_in. intros u Hu.
    rewrite Forall_forall in Hsrc. by apply Hsrc, list_elem_of_In. }
  rewrite Hrows.
  destruct (rows_of f2 (in_sources g v)) as [|m ms] eqn:Hnil; [|done].
  exfalso. apply Hdeg. unfold rows_of in Hnil. apply map_eq_nil in Hnil.
  unfold in_degree. by rewrite Hnil.
Qed.

(** Property X6. Message passing is local: the row a layer returns for a
    node with incoming edges depends on the features of the sources of those
    edges only. Two passes on feature tensors that agree on these sources
    agree on the node, whatever the tensors hold elsewhere. *)
Theorem GCN_forward_local (self : GCN) (g : DGLGraph) (f1 f2 o1 o2 : Tensor)
    (v : nat) :
  activation (apply_mod self) = F_relu ->
  in_degree g v <> 0 ->
  Forall (fun u => f1 !!! u = f2 !!! u) (in_sources g v) ->
  outcome (GCN_forward self f1 g) = inr o1 ->
  outcome (GCN_forward self f2 g) = inr o2 ->
  o1 !! v = o2 !! v.
Proof.
  intros Hact Hdeg Hsrc. rewrite !GCN_forward_outcome. unfold layer_outcome.
  destruct (length f1 =? num_nodes g) eqn:E1; [|done].
  destruct (length f2 =? num_nodes g) eqn:E2; [|done].
  apply Nat.eqb_eq in E1, E2.
  destruct (Linear_forward _ (mean_of_received g f1)) as [e|y1] eqn:L1; [done|].
  destruct (Linear_forward _ (mean_of_received g f2)) as [e|y2] eqn:L2; [done|].
  apply Linear_forward_ok in L1 as ->. apply Linear_forward_ok in L2 as ->.
  rewrite Hact.
  destruct (_ =? _); [|done]. intros [= <-].
  destruct (_ =? _); [|done]. intros [= <-].
  unfold F_relu. rewrite !list_lookup_fmap.
  by rewrite (mean_of_received_local g f1 f2 v).
Qed.

(** The result of a forward pass does not depend on the node data of the
    graph. *)
Lemma classifier_outcome_with_ndata (self : Classifier) (g : DGLGraph)
    (nd : gmap string Tensor) :
  classifier_outcome self (with_ndata g nd) = classifier_outcome self g.
Proof.
  unfold classifier_outcome.
  change (degree_column (with_ndata g nd)) with (degree_column g).
  rewrite layers_outcome_with_ndata.
  by destruct (layers_outcome (layers self) g (degree_column g)).
Qed.

(** Property X7. A forward pass can be repeated: whatever node data the
    graph carries, and whether the first pass returned or raised, a second
    pass on the graph as the first one left it has the same outcome; and
    when the first pass returned, the second leaves the graph as the first
    did. *)
Theorem Classifier_forward_repeatable (self : Classifier) (g : DGLGraph) :
  (forall nd, outcome (Classifier_forward self (with_ndata g nd))
              = outcome (Classifier_forward self g)) /\
  outcome (Classifier_forward self (final (Classifier_forward self g)))
    = outcome (Classifier_forward self g) /\
  (forall logits,
     outcome (Classifier_forward self g) = inr logits ->
     final (Classifier_forward self (final (Classifier_forward self g)))
       = final (Classifier_forward self g)).
Proof.
  assert (Hnd : forall nd, outcome (Classifier_forward self (with_ndata g nd))
                           = outcome (Classifier_forward self g)).
  { intros nd.
    rewrite (proj1 (Classifier_forward_outcome self (with_ndata g nd))).
    rewrite (proj1 (Classifier_forward_outcome self g)).
    apply classifier_outcome_with_ndata. }
  split; [exact Hnd|].
  destruct (Classifier_forward_outcome self g) as [_ [nd Hfin]].
  split; [by rewrite Hfin|].
  intros logits Hout.
  pose proof Hout as Hout1.
  apply Classifier_forward_ok in Hout1 as (_ & Hf1 & _).
  assert (Hout2 : outcome (Classifier_forward self
                   (final (Classifier_forward self g))) = inr logits).
  { by rewrite Hfin, Hnd. }
  apply Classifier_forward_ok in Hout2 as (_ & Hf2 & _).
  rewrite Hf2, Hf1. cbn [with_ndata ndata num_nodes edges batch_num_nodes].
  by rewrite insert_insert_eq.
Qed.

End ShapeFacts.

(** ** Batching commutes with the model *)

Section BatchFacts.
Context `{Scalar}.

Lemma filter_dst_shift (off v : nat) (es : list (nat * nat)) :
  filter (fun e => snd e = off + v) (shift_edges off es)
  = shift_edges off (filter (fun e => snd e = v) es).
Proof.
  unfold shift_edges. induction es as [|[a b] es IH]; [done|].
  cbn [map]. rewrite !filter_cons. cbn [fst snd].
  destruct (decide (b = v)) as [->|Hne].
  - rewrite decide_True by done. cbn [map fst snd]. by rewrite IH.
  - rewrite decide_False by lia. exact IH.
Qed.

Lemma filter_dst_shift_lt (off v : nat) (es : list (nat * nat)) :
  v < off -> filter (fun e => snd e = v) (shift_edges off es) = [].
Proof.
  intros Hv. unfold shift_edges. induction es as [|[a b] es IH]; [done|].
  cbn [map]. rewrite filter_cons. cbn [fst snd].
  by rewrite decide_False by lia.
Qed.

Lemma filter_dst_ge (g : DGLGraph) (v : nat) :
  wf_edges g -> num_nodes g <= v -> filter (fun e => snd e = v) (edges g) = [].
Proof.
  unfold wf_edges. intros Hwf Hv.
  induction (edges g) as [|[a b] es IH]; [done|].
  apply Forall_cons in Hwf as [[_ Hb] Hwf]. rewrite filter_cons. cbn [snd] in *.
  rewrite decide_False by lia. by apply IH.
Qed.

Lemma in_sources_union_l (a b c : DGLGraph) (v : nat) :
  is_union a b c -> v < num_nodes a -> in_sources c v = in_sources a v.
Proof.
  intros [_ He] Hv. unfold in_sources.
  by rewrite He, filter_app, filter_dst_shift_lt, app_nil_r.
Qed.

Lemma in_sources_union_r (a b c : DGLGraph) (j : nat) :
  is_union a b c -> wf_edges a ->
  in_sources c (num_nodes a + j) = map (Nat.add (num_nodes a)) (in_sources b j).
Proof.
  intros [_ He] Hwf. unfold in_sources.
  rewrite He, filter_app, filter_dst_ge, filter_dst_shift by (done || lia).
  cbn [app]. unfold shift_edges. rewrite !map_map. by apply map_ext.
Qed.

Lemma wf_edges_union (a b c : DGLGraph) :
  is_union a b c -> wf_edges a -> wf_edges b -> wf_edges c.
Proof.
  unfold wf_edges. intros [Hn He] Ha Hb. rewrite He, Hn.
  apply Forall_app. split.
  - eapply Forall_impl; [exact Ha|]. cbn. lia.
  - unfold shift_edges. apply Forall_fmap.
    eapply Forall_impl; [exact Hb|]. cbn. lia.
Qed.

Lemma all_reached_union (a b c : DGLGraph) :
  is_union a b c -> wf_edges a -> all_reached a -> all_reached b -> all_reached c.
Proof.
  unfold all_reached. intros Hu Hwf Ha Hb.
  rewrite (proj1 Hu), seq_app. apply Forall_app. split.
  - rewrite Forall_forall in Ha |- *. intros v Hv.
    pose proof (Ha v Hv) as Hd. apply elem_of_seq in Hv.
    unfold in_degree in *. by rewrite (in_sources_union_l a b c) by (done || lia).
  - cbn [Nat.add]. rewrite <- (Nat.add_0_r (num_nodes a)) at 1.
    rewrite <- fmap_add_seq. apply Forall_fmap.
    eapply Forall_impl; [exact Hb|]. cbn. intros j Hj.
    unfold in_degree in *. rewrite (in_sources_union_r a b c) by done.
    by rewrite length_map.
Qed.

(** When every node is reached, the aggregation is the mean of the
    in-neighbours' features at every node. *)
Lemma mean_of_received_reached (g : DGLGraph) (col : Tensor) :
  all_reached g -> length col = num_nodes g ->
  mean_of_received g col = map (node_mean g col) (seq 0 (num_nodes g)).
Proof.
  intros Hr Hlen. apply list_eq. intros v.
  unfold mean_of_received. rewrite list_lookup_imap, list_lookup_fmap.
  destruct (decide (v < num_nodes g)) as [Hv|Hv].
  - rewrite lookup_seq_lt by done.
    destruct (lookup_lt_is_Some_2 col v) as [row Hrow]; [lia|].
    rewrite Hrow. cbn -[mean_rows received any_received].
    rewrite received_sources. unfold node_mean.
    unfold all_reached in Hr. rewrite Forall_forall in Hr.
    assert (Hd : in_degree g v <> 0) by (apply Hr, elem_of_seq; lia).
    destruct (rows_of col (in_sources g v)) as [|m ms] eqn:Hrows; [|done].
    exfalso. apply Hd. unfold rows_of in Hrows. apply map_eq_nil in Hrows.
    unfold in_degree. by rewrite Hrows.
  - rewrite lookup_seq_ge by lia. by rewrite (lookup_ge_None_2 col) by lia.
Qed.

Lemma rows_of_app_l (x y : Tensor) (ids : list nat) :
  Forall (fun u => u < length x) ids -> rows_of (x ++ y) ids = rows_of x ids.
Proof.
  intros Hids. unfold rows_of. apply map_ext_in. intros u Hu.
  rewrite Forall_forall in Hids. apply list_elem_of_In, Hids in Hu.
  by apply lookup_total_app_l.
Qed.

Lemma rows_of_app_r (x y : Tensor) (ids : list nat) :
  rows_of (x ++ y) (map (Nat.add (length x)) ids) = rows_of y ids.
Proof.
  unfold rows_of. rewrite map_map. apply map_ext. intros u.
  rewrite lookup_total_app_r by lia. f_equal. lia.
Qed.

(** The aggregation on a disjoint union is the aggregation on each part. *)
Lemma mean_of_received_union (a b c : DGLGraph) (x y : Tensor) :
  is_union a b c -> wf_edges a ->
  all_reached a -> all_reached b ->
  length x = num_nodes a -> length y = num_nodes b ->
  mean_of_received c (x ++ y) = mean_of_received a x ++ mean_of_received b y.
Proof.
  intros Hu Hwf Ha Hb Hx Hy.
  rewrite (mean_of_received_reached c), (mean_of_received_reached a),
    (mean_of_received_reached b); try done.
  2:{ by apply (all_reached_union a b c). }
  2:{ rewrite length_app, (proj1 Hu). lia. }
  rewrite (proj1 Hu), seq_app, map_app. f_equal.
  - apply map_ext_in. intros v Hv. apply in_seq in Hv. unfold node_mean.
    rewrite (in_sources_union_l a b c) by (done || lia).
    rewrite rows_of_app_l; [done|].
    apply Forall_forall. intros u Hin. rewrite Hx. by eapply in_sources_lt.
  - cbn [Nat.add]. rewrite <- (Nat.add_0_r (num_nodes a)) at 1.
    rewrite <- fmap_add_seq.
    change (Nat.add (num_nodes a) <$> seq 0 (num_nodes b))
      with (map (Nat.add (num_nodes a)) (seq 0 (num_nodes b))).
    rewrite map_map. apply map_ext. intros j. unfold node_mean.
    rewrite (in_sources_union_r a b c) by done.
    by rewrite <- Hx, rows_of_app_r.
Qed.

Lemma degree_column_union (a b c : DGLGraph) :
  is_union a b c -> wf_edges a ->
  degree_column c = degree_column a ++ degree_column b.
Proof.
  intros Hu Hwf. rewrite <- !degree_column_eq.
  rewrite (proj1 Hu), seq_app, map_app. unfold view_col_float.
  rewrite map_app. f_equal.
  - f_equal. apply map_ext_in. intros v Hv. apply in_seq in Hv.
    unfold in_degree. by rewrite (in_sources_union_l a b c) by (done || lia).
  - f_equal. cbn [Nat.add]. rewrite <- (Nat.add_0_r (num_nodes a)) at 1.
    rewrite <- fmap_add_seq.
    change (Nat.add (num_nodes a) <$> seq 0 (num_nodes b))
      with (map (Nat.add (num_nodes a)) (seq 0 (num_nodes b))).
    rewrite map_map. apply map_ext. intros j. unfold in_degree.
    rewrite (in_sources_union_r a b c) by done. by rewrite length_map.
Qed.

Lemma Linear_forward_app (l : Linear) (x y ox oy : Tensor) :
  Linear_forward l x = inr ox -> Linear_forward l y = inr oy ->
  Linear_forward l (x ++ y) = inr (ox ++ oy).
Proof.
  unfold Linear_forward. rewrite forallb_app.
  destruct (forallb _ x); [|done]. destruct (forallb _ y); [|done].
  cbn [andb]. intros [= <-] [= <-]. by rewrite map_app.
Qed.

Lemma layer_outcome_length (self : GCN) (g : DGLGraph) (x o : Tensor) :
  layer_outcome self g x = inr o -> length x = num_nodes g /\ length o = num_nodes g.
Proof.
  unfold layer_outcome.
  destruct (Nat.eqb_spec (length x) (num_nodes g)) as [Hx|Hx]; [|done].
  destruct (Linear_forward _ _) as [err|y]; [done|].
  destruct (Nat.eqb_spec (length (activation (apply_mod self) y)) (num_nodes g))
    as [Hy|Hy]; [|done].
  by intros [= <-].
Qed.

(** One layer on a disjoint union. *)
Lemma layer_outcome_union (self : GCN) (a b c : DGLGraph) (x y ox oy : Tensor) :
  activation (apply_mod self) = F_relu ->
  is_union a b c -> wf_edges a ->
  all_reached a -> all_reached b ->
  layer_outcome self a x = inr ox ->
  layer_outcome self b y = inr oy ->
  layer_outcome self c (x ++ y) = inr (ox ++ oy).
Proof.
  intros Hact Hu Hwf Ha Hb Hox Hoy.
  destruct (layer_outcome_length _ _ _ _ Hox) as [Hx Hlx].
  destruct (layer_outcome_length _ _ _ _ Hoy) as [Hy Hly].
  unfold layer_outcome in *. rewrite Hact in *.
  rewrite Hx, Nat.eqb_refl in Hox. rewrite Hy, Nat.eqb_refl in Hoy.
  rewrite length_app, Hx, Hy, <- (proj1 Hu), Nat.eqb_refl.
  rewrite (mean_of_received_union a b c) by done.
  destruct (Linear_forward _ (mean_of_received a x)) as [e|ya] eqn:Hla; [done|].
  destruct (Linear_forward _ (mean_of_received b y)) as [e|yb] eqn:Hlb; [done|].
  rewrite (Linear_forward_app _ _ _ _ _ Hla Hlb).
  destruct (length (F_relu ya) =? num_nodes a); [|done].
  destruct (length (F_relu yb) =? num_nodes b); [|done].
  injection Hox as <-. injection Hoy as <-.
  unfold F_relu in *. rewrite map_app, length_app, Hlx, Hly, <- (proj1 Hu).
  by rewrite Nat.eqb_refl.
Qed.

Lemma layers_outcome_union (convs : list GCN) (a b c : DGLGraph)
    (x y ox oy : Tensor) :
  Forall (fun conv => activation (apply_mod conv) = F_relu) convs ->
  is_union a b c -> wf_edges a ->
  all_reached a -> all_reached b ->
  layers_outcome convs a x = inr ox ->
  layers_outcome convs b y = inr oy ->
  layers_outcome convs c (x ++ y) = inr (ox ++ oy).
Proof.
  intros Hact Hu Hwf Ha Hb. revert x y.
  induction convs as [|conv rest IH]; intros x y Hox Hoy.
  - cbn in *. by injection Hox as <-; injection Hoy as <-.
  - apply Forall_cons in Hact as [Hc Hrest]. cbn [layers_outcome] in *.
    destruct (layer_outcome conv a x) as [e|x'] eqn:Hxa; [done|].
    destruct (layer_outcome conv b y) as [e|y'] eqn:Hyb; [done|].
    rewrite (layer_outcome_union conv a b c x y x' y') by done.
    by apply IH.
Qed.

Lemma shift_edges_0 (es : list (nat * nat)) : shift_edges 0 es = es.
Proof.
  unfold shift_edges.
  transitivity (map (fun e : nat * nat => e) es); [|apply map_id].
  apply map_ext. by intros [a b].
Qed.

Lemma union_graphs_shift (a off : nat) (gs : list DGLGraph) :
  union_graphs (a + off) gs = shift_edges a (union_graphs off gs).
Proof.
  revert off. induction gs as [|g gs IH]; intros off; [done|].
  cbn [union_graphs]. unfold shift_edges at 2. rewrite map_app.
  fold (shift_edges a (shift_edges off (edges g))).
  fold (shift_edges a (union_graphs (off + num_nodes g) gs)).
  rewrite <- IH. f_equal; [|f_equal; lia].
  unfold shift_edges. rewrite map_map. apply map_ext. intros [u v].
  cbn [fst snd]. f_equal; lia.
Qed.

Lemma batch_of_cons (g : DGLGraph) (gs : list DGLGraph) :
  is_union g (batch_of gs) (batch_of (g :: gs)).
Proof.
  split; [done|]. cbn [batch_of edges union_graphs num_nodes].
  rewrite shift_edges_0. f_equal.
  rewrite <- (Nat.add_0_r (0 + num_nodes g)). apply union_graphs_shift.
Qed.

Lemma layers_outcome_no_nodes (convs : list GCN) :
  Forall (fun conv => activation (apply_mod conv) = F_relu) convs ->
  layers_outcome convs (batch_of []) [] = inr [].
Proof.
  induction convs as [|conv rest IH]; intros Hact; [done|].
  apply Forall_cons in Hact as [Hc Hrest]. cbn [layers_outcome].
  unfold layer_outcome. rewrite Hc. cbn. by apply IH.
Qed.

(** The layers on a batch: the rows of the graphs, one graph after the
    other. *)
Lemma layers_outcome_batch (convs : list GCN) (gs : list DGLGraph)
    (os : list Tensor) :
  Forall (fun conv => activation (apply_mod conv) = F_relu) convs ->
  Forall (fun g => wf_edges g /\ all_reached g) gs ->
  Forall2 (fun g o => layers_outcome convs g (degree_column g) = inr o) gs os ->
  wf_edges (batch_of gs) /\
  all_reached (batch_of gs) /\
  layers_outcome convs (batch_of gs) (degree_column (batch_of gs))
    = inr (concat os).
Proof.
  intros Hact Hgs Hos. induction Hos as [|g o gs os Ho Hos IH].
  - split; [constructor|]. split; [constructor|].
    by apply layers_outcome_no_nodes.
  - apply Forall_cons in Hgs as [[Hwf Hr] Hgs].
    destruct (IH Hgs) as (Hwfb & Hrb & Hob).
    pose proof (batch_of_cons g gs) as Hu.
    split; [by apply (wf_edges_union g (batch_of gs))|].
    split; [by apply (all_reached_union g (batch_of gs))|].
    rewrite (degree_column_union g (batch_of gs)) by done.
    cbn [concat]. by apply (layers_outcome_union convs g (batch_of gs)).
Qed.

Lemma segments_concat (gs : list DGLGraph) (os : list Tensor) :
  Forall2 (fun g o => length o = num_nodes g) gs os ->
  segments (map num_nodes gs) (concat os) = os /\
  length (concat os) = list_sum (map num_nodes gs).
Proof.
  induction 1 as [|g o gs os Ho Hos [IH1 IH2]]; [done|].
  cbn [map segments concat list_sum]. rewrite <- Ho.
  rewrite take_app_length, drop_app_length, IH1, length_app, IH2.
  split; [done|]. by rewrite Ho.
Qed.

Lemma Linear_forward_rows (l : Linear) (os ls : list Tensor) :
  Forall2 (fun o out => Linear_forward l [mean_rows o] = inr out) os ls ->
  Linear_forward l (map mean_rows os) = inr (concat ls).
Proof.
  induction 1 as [|o out os ls Ho Hos IH]; [done|].
  cbn [map concat].
  by apply (Linear_forward_app l [mean_rows o] (map mean_rows os)).
Qed.

Lemma classifier_outcome_single (self : Classifier) (g : DGLGraph) (l : Tensor) :
  single g ->
  classifier_outcome self g = inr l ->
  exists o,
    layers_outcome (layers self) g (degree_column g) = inr o /\
    length o = num_nodes g /\
    Linear_forward (classify self) [mean_rows o] = inr l.
Proof.
  unfold single, classifier_outcome, readout_spec. intros Hs.
  destruct (layers_outcome (layers self) g (degree_column g)) as [e|o]; [done|].
  destruct (Nat.eqb_spec (length o) (num_nodes g)) as [Hl|Hl]; [|done].
  rewrite Hs. cbn [segments map]. rewrite <- Hl, firstn_all. intros Hc.
  by exists o.
Qed.

Lemma m_batch_structure (gs : list DGLGraph) (bg : DGLGraph) :
  m_batch gs = inr bg -> bg = with_ndata (batch_of gs) (cat_frames gs).
Proof.
  unfold m_batch. destruct gs as [|g gs]; [done|].
  destruct (same_attrs (g :: gs)); [|done]. by intros [= <-].
Qed.

(** Property X8. Batching commutes with the model: on graphs whose nodes all
    have an incoming edge, the forward pass on [dgl.batch(gs)] returns,
    graph by graph, the logits the forward pass returns on each graph alone. *)
Theorem batch_forward_commutes (self : Classifier) (gs : list DGLGraph)
    (bg : DGLGraph) (ls : list Tensor) :
  Forall (fun conv => activation (apply_mod conv) = F_relu) (layers self) ->
  Forall (fun g => wf_edges g /\ all_reached g /\ single g) gs ->
  dgl_batch gs = inr bg ->
  Forall2 (fun g l => outcome (Classifier_forward self g) = inr l) gs ls ->
  outcome (Classifier_forward self bg) = inr (concat ls).
Proof.
  intros Hact Hgs Hb Hls.
  apply m_batch_structure in Hb. subst bg.
  rewrite (proj1 (Classifier_forward_outcome self _)),
    classifier_outcome_with_ndata.
  assert (Hos : exists os,
             Forall2 (fun g o => layers_outcome (layers self) g (degree_column g)
                                 = inr o) gs os /\
             Forall2 (fun g o => length o = num_nodes g) gs os /\
             Forall2 (fun o out => Linear_forward (classify self) [mean_rows o]
                                   = inr out) os ls).
  { clear Hact. induction Hls as [|g l gs ls Hl Hls IH].
    - exists []. by repeat split.
    - apply Forall_cons in Hgs as [(_ & _ & Hs) Hgs].
      destruct (IH Hgs) as (os & H1 & H2 & H3).
      rewrite (proj1 (Classifier_forward_outcome self g)) in Hl.
      destruct (classifier_outcome_single self g l Hs Hl) as (o & Ho & Hlen & Hc).
      exists (o :: os). by repeat split; constructor. }
  destruct Hos as (os & H1 & H2 & H3).
  destruct (layers_outcome_batch (layers self) gs os Hact) as (_ & _ & Hlay);
    [|done|].
  { eapply Forall_impl; [exact Hgs|]. cbn. tauto. }
  destruct (segments_concat gs os H2) as [Hseg Hlen].
  unfold classifier_outcome. rewrite Hlay, Hlen.
  cbn [num_nodes batch_of]. rewrite Nat.eqb_refl.
  unfold readout_spec. cbn [batch_num_nodes batch_of]. rewrite Hseg.
  by apply Linear_forward_rows.
Qed.

End BatchFacts.

(** ** Batching graphs without node features, and the loader *)

Section LoaderFacts.
Context `{Scalar}.









End LoaderFacts.

(** ** What the cells change and call *)

(** Case analysis on membership in a list of calls written out, and its
    refutation. *)
Ltac pick_call H :=
  repeat (apply elem_of_cons in H as [->|H]); try (by apply elem_of_nil in H).

Ltac other_call :=
  let Hin := fresh "Hin" in
  let Heq := fresh "Heq" in
  intros Hin;
  repeat (apply elem_of_cons in Hin as [Heq|Hin]; [discriminate Heq|]);
  by apply elem_of_nil in Hin.

Section RunFacts.
Context {St : Type}.

Lemma moves_ret {A} (R : St -> St -> Prop) `{!Reflexive R} (x : A) :
  moves R (ret x).
Proof. intros s. cbn. reflexivity. Qed.

Lemma moves_get (R : St -> St -> Prop) `{!Reflexive R} : moves R get.
Proof. intros s. cbn. reflexivity. Qed.

Lemma moves_call_pure {A} (R : St -> St -> Prop) `{!Reflexive R} c (o : result A) :
  moves R (call_pure c o).
Proof. intros s. cbn. reflexivity. Qed.

Lemma moves_on_object {G A} (R : St -> St -> Prop) `{!Reflexive R}
    (g : G) (m : M G A) :
  moves R (on_object g m).
Proof. intros s. cbn. reflexivity. Qed.

Lemma moves_modify (R : St -> St -> Prop) (f : St -> St) :
  (forall s, R s (f s)) -> moves R (modify f).
Proof. intros Hf s. apply Hf. Qed.

Lemma moves_call {A} (R : St -> St -> Prop) c (op : St -> St * result A) :
  (forall s, R s (fst (op s))) -> moves R (call c op).
Proof. intros Hop s. rewrite run_call. apply Hop. Qed.

Lemma moves_bind {A B} (R : St -> St -> Prop) `{!Transitive R}
    (m : M St A) (k : A -> M St B) :
  moves R m -> (forall x, moves R (k x)) -> moves R (bind m k).
Proof.
  intros Hm Hk s. unfold bind.
  destruct (outcome (m s)) as [e|x]; cbn [final]; [apply Hm|].
  etransitivity; [apply Hm|apply Hk].
Qed.

Lemma calls_within_ret {A} (P : lib_call -> Prop) (x : A) :
  calls_within (St:=St) P (ret x).
Proof. intros s. constructor. Qed.

Lemma calls_within_call {A} (P : lib_call -> Prop) c (op : St -> St * result A) :
  P c -> calls_within P (call c op).
Proof. intros Hc s. rewrite run_call. cbn [log]. by repeat constructor. Qed.

Lemma calls_within_bind {A B} (P : lib_call -> Prop)
    (m : M St A) (k : A -> M St B) :
  calls_within P m -> (forall x, calls_within P (k x)) -> calls_within P (bind m k).
Proof.
  intros Hm Hk s. unfold bind.
  destruct (outcome (m s)) as [e|x]; cbn [log]; [apply Hm|].
  apply Forall_app. split; [apply Hm|apply Hk].
Qed.



End RunFacts.

Section ForwardCalls.
Context `{Scalar} `{!Backend}.

Lemma graph_call_dec (c : lib_call) : Decision (graph_call c).
Proof. unfold graph_call. apply _. Qed.

Lemma GCN_forward_calls (self : GCN) (feature : Tensor) :
  calls_within graph_call (GCN_forward self feature).
Proof.
  unfold GCN_forward.
  repeat (apply calls_within_bind; [|intros ?]);
    apply calls_within_call; unfold graph_call; set_solver.
Qed.

Lemma for_layers_calls (convs : list GCN) (h : Tensor) :
  calls_within graph_call (for_layers convs h).
Proof.
  revert h. induction convs as [|conv rest IH]; intros h; cbn [for_layers].
  - apply calls_within_ret.
  - apply calls_within_bind; [apply GCN_forward_calls|]. intros h'. apply IH.
Qed.

(** A forward pass calls nothing but the graph primitives and the linear
    map. *)
Lemma Classifier_forward_calls (self : Classifier) :
  calls_within graph_call (Classifier_forward self).
Proof.
  unfold Classifier_forward, call_pure.
  apply calls_within_bind; [apply calls_within_call; unfold graph_call; set_solver|].
  intros d. apply calls_within_bind; [apply for_layers_calls|]. intros h.
  repeat (apply calls_within_bind; [|intros ?]);
    apply calls_within_call; unfold graph_call; set_solver.
Qed.

End ForwardCalls.

Section CellInvariants.
Context `{Scalar} `{!Backend} {Grads OptState : Type}.
Variable loss_func : Tensor -> list Z -> result num.
Variable zero_grad : Grads -> Grads.
Variable backward : Classifier -> DGLGraph -> list Z -> Grads -> result Grads.
Variable adam_step : OptState -> Classifier -> Grads -> result (OptState * Classifier).
Variable softmax : Tensor -> result Tensor.
Variable multinomial : Tensor -> result (list Z).
Variable max_index : Tensor -> result (list Z).
Variable trainset : list sample.
Variable shuffle : nat -> list sample -> list sample.

Local Abbreviation epoch :=
  (train_epoch loss_func zero_grad backward adam_step trainset shuffle).
Local Abbreviation train :=
  (training loss_func zero_grad backward adam_step trainset shuffle).
Local Abbreviation eval :=
  (evaluation (Grads:=Grads) (OptState:=OptState) softmax multinomial max_index).
Local Abbreviation loader := (data_loader trainset shuffle).
Local Abbreviation Env := (@Env _ Grads OptState).
Local Abbreviation reported :=
  (reported_loss loss_func zero_grad backward adam_step).

#[local] Instance only_prints_refl : Reflexive (only_prints (Grads:=Grads) (OptState:=OptState)).
Proof. intros s. by repeat split. Qed.

#[local] Instance only_prints_trans : Transitive (only_prints (Grads:=Grads) (OptState:=OptState)).
Proof.
  intros s1 s2 s3 (?&?&?&?&?&?&?) (?&?&?&?&?&?&?).
  repeat split; try congruence. by etransitivity.
Qed.

Lemma moves_print (ln : line) :
  moves only_prints
    (call (St:=Env) c_print (fun s => (print ln s, inr tt))).
Proof.
  intros s. rewrite run_call. cbn. repeat split; try done.
  by apply prefix_app_r.
Qed.

Lemma calls_within_on_object {St A} (P : lib_call -> Prop) (g : DGLGraph)
    (m : M DGLGraph A) :
  calls_within P m -> calls_within (St:=St) P (on_object g m).
Proof. intros Hm s. cbn. apply Hm. Qed.

Lemma calls_within_weaken {St A} (P Q : lib_call -> Prop) (m : M St A) :
  (forall c, P c -> Q c) -> calls_within P m -> calls_within Q m.
Proof. intros HPQ Hm s. eapply Forall_impl; [apply Hm|]. intros en. apply HPQ. Qed.

Lemma evaluation_calls (testset : list sample) :
  calls_within evaluation_call (eval testset).
Proof.
  unfold evaluation, call_pure, get.
  apply calls_within_bind;
    [apply calls_within_call; right; set_solver|intros [test_X test_Y]].
  apply calls_within_bind; [apply calls_within_call; right; set_solver|intros bg].
  apply calls_within_bind; [apply calls_within_call; right; set_solver|intros t].
  apply calls_within_bind; [intros s; constructor|intros s0].
  apply calls_within_bind.
  { apply calls_within_on_object.
    eapply calls_within_weaken; [|apply Classifier_forward_calls]. by left. }
  intros r.
  repeat (apply calls_within_bind; [|intros ?]);
    apply calls_within_call; right; set_solver.
Qed.

(** Property X11. The evaluation cell assigns none of the variables of the
    training cell: however it ends, the parameters of the model, the
    gradients, the state of the optimizer and the loss records are as
    before, and the output has only grown. It computes no loss and takes no
    optimisation step. *)
Theorem evaluation_only_prints (testset : list sample) (s : Env) :
  only_prints s (final (eval testset s)) /\
  Forall (fun en => fst en ∉ [c_loss_func; c_zero_grad; c_backward; c_step])
         (log (eval testset s)).
Proof.
  split.
  - revert s. change (moves only_prints (eval testset)).
    unfold evaluation.
    apply moves_bind; [apply _|apply moves_call_pure, _|intros [test_X test_Y]].
    apply moves_bind; [apply _|apply moves_call_pure, _|intros bg].
    apply moves_bind; [apply _|apply moves_call_pure, _|intros t].
    apply moves_bind; [apply _|apply moves_get, _|intros s0].
    apply moves_bind; [apply _|apply moves_on_object, _|intros r].
    apply moves_bind; [apply _|apply moves_call_pure, _|intros probs].
    apply moves_bind; [apply _|apply moves_call_pure, _|intros sampled].
    apply moves_bind; [apply _|apply moves_call_pure, _|intros argmax].
    apply moves_bind; [apply _|apply moves_call_pure, _|intros k1].
    apply moves_bind; [apply _|apply moves_call_pure, _|intros a1].
    apply moves_bind; [apply _|apply moves_print|intros []].
    apply moves_bind; [apply _|apply moves_call_pure, _|intros k2].
    apply moves_bind; [apply _|apply moves_call_pure, _|intros a2].
    apply moves_print.
  - eapply Forall_impl; [apply evaluation_calls|].
    intros [c o] [Hc|Hc]; cbn [fst] in *; [unfold graph_call in Hc|];
      pick_call Hc; other_call.
Qed.

(** Property X12. On an empty test set the evaluation stops where it unpacks
    the test set, with a [ValueError]: nothing is batched, the model is not
    run and nothing is printed. *)
Theorem evaluation_empty_testset (s : Env) :
  outcome (eval [] s)
    = inl (ValueError "not enough values to unpack (expected 2, got 0)") /\
  final (eval [] s) = s /\
  map fst (log (eval [] s)) = [c_unpack].
Proof. done. Qed.

#[local] Instance same_records_refl : Reflexive (same_records (Grads:=Grads) (OptState:=OptState)).
Proof. by intros s. Qed.

#[local] Instance same_records_trans : Transitive (same_records (Grads:=Grads) (OptState:=OptState)).
Proof. intros s1 s2 s3 [? ?] [? ?]. split; congruence. Qed.

(** A step of the inner loop neither prints nor records a loss, whether
    it returns or raises. *)
Lemma loop_body_same_records (it : nat) (group : list sample) :
  moves same_records
    (loop_body loss_func zero_grad backward adam_step it group).
Proof.
  unfold loop_body, train_step.
  apply moves_bind; [apply _| |intros b].
  { intros s. rewrite collate_final. reflexivity. }
  apply moves_bind; [apply _|by apply moves_modify|intros []].
  apply moves_bind; [apply _| |intros loss; apply moves_bind;
    [apply _|by apply moves_modify|intros []; apply moves_ret, _]].
  apply moves_bind; [apply _|apply moves_get, _|intros s0].
  apply moves_bind; [apply _|apply moves_on_object, _|intros r].
  apply moves_bind; [apply _|apply moves_call_pure, _|intros l].
  apply moves_bind; [apply _|by apply moves_call|intros []].
  apply moves_bind; [apply _| |intros []].
  { apply moves_call. intros s. by destruct (backward _ _ _ _). }
  apply moves_bind; [apply _| |intros []; apply moves_ret, _].
  apply moves_call. intros s. by destruct (adam_step _ _ _).
Qed.

Lemma for_enumerate_same_records (groups : list (list sample)) (i : nat) :
  moves same_records
    (for_enumerate groups i (loop_body loss_func zero_grad backward adam_step)).
Proof.
  revert i. induction groups as [|group rest IH]; intros i; cbn [for_enumerate].
  - apply moves_ret, _.
  - apply moves_bind; [apply _|apply loop_body_same_records|intros _; apply IH].
Qed.

(** Every run of one epoch: it returns after printing one line and
    recording the value printed, or it raises having done neither. *)
Lemma train_epoch_any (e : nat) (s : Env) :
  (outcome (epoch e s) = inr tt /\
   exists v, stdout (final (epoch e s)) = stdout s ++ [EpochLine e v] /\
             epoch_losses (final (epoch e s)) = epoch_losses s ++ [v]) \/
  ((exists err, outcome (epoch e s) = inl err) /\
   same_records s (final (epoch e s))).
Proof.
  rewrite train_epoch_run. cbv zeta.
  destruct (for_enumerate_same_records (loader e) 0 (set_epoch_loss s_zero s))
    as [Hso Hes].
  cbn [stdout epoch_losses set_epoch_loss] in Hso, Hes.
  destruct (outcome (for_enumerate _ _ _ _)) as [err|[]].
  { right. cbn [outcome final]. split; [by eexists|by split]. }
  destruct (iter_plus_1 _) as [err|k].
  { right. cbn [outcome final]. split; [by eexists|by split]. }
  left. cbn [outcome final]. split; [done|].
  eexists. cbn [print set_epoch_loss set_epoch_losses stdout epoch_losses epoch_loss].
  rewrite Hso, Hes. by split.
Qed.

Lemma for_each_epochs_any (epochs : list nat) (s : Env) :
  let r := for_each epochs epoch s in
  exists vs,
    length vs <= length epochs /\
    (outcome r = inr tt -> length vs = length epochs) /\
    epoch_losses (final r) = epoch_losses s ++ vs /\
    stdout (final r) = stdout s ++ zip_with EpochLine epochs vs.
Proof.
  revert s. induction epochs as [|e rest IH]; intros s; cbn [for_each].
  - exists []. cbn. by rewrite !app_nil_r.
  - destruct (train_epoch_any e s) as [[He (v & Hso & Hes)]|[[err He] [Hso Hes]]].
    + rewrite (run_bind_ok _ _ _ _ He). cbn [outcome final].
      destruct (IH (final (epoch e s))) as (vs & Hle & Hn & Hes' & Hso').
      exists (v :: vs). cbn [length zip_with].
      rewrite Hes', Hso', Hes, Hso, <- !app_assoc.
      split; [lia|]. split; [intros Hok; by rewrite Hn|]. by split.
    + rewrite (run_bind_raise _ _ _ _ He). cbn [outcome final].
      exists []. cbn [length zip_with]. rewrite !app_nil_r.
      split; [lia|]. split; [done|]. by split.
Qed.

(** Property X13. However a training run ends, [epoch_losses] holds exactly
    the values it printed so far, one per epoch completed and in the order
    of the epochs, whatever the list held before the cell ran: an epoch that
    raises has printed and recorded nothing. A run that returns has recorded
    one value for each of its epochs. *)
Theorem training_records_printed_losses (n : nat) (s : Env) :
  let s' := final (train n s) in
  length (epoch_losses s') <= n /\
  stdout s' = stdout s ++ zip_with EpochLine (seq 0 n) (epoch_losses s') /\
  (outcome (train n s) = inr tt -> length (epoch_losses s') = n).
Proof.
  unfold training, modify.
  rewrite (run_bind_ok _ _ s tt) by done.
  cbn [outcome final log].
  destruct (for_each_epochs_any (seq 0 n) (set_epoch_losses [] s))
    as (vs & Hle & Hn & Hes & Hso).
  rewrite length_seq in Hle, Hn.
  rewrite Hes, Hso. cbn [epoch_losses stdout set_epoch_losses app].
  by repeat split.
Qed.






End CellInvariants.

(** ** The properties above on the small inputs *)

Ltac forall_list tac :=
  repeat (apply Forall_cons; split; [tac|]); apply Forall_nil_2.

Lemma ex_path_wf : wf_edges ex_path.
Proof. unfold wf_edges. cbn. forall_list ltac:(cbn; lia). Qed.

Lemma ex_pair_wf : wf_edges ex_pair.
Proof. unfold wf_edges. cbn. forall_list ltac:(cbn; lia). Qed.

Lemma ex_batch_wf : wf_edges ex_batch.
Proof. unfold wf_edges. cbn. forall_list ltac:(cbn; lia). Qed.

Lemma ex_path_reached : all_reached ex_path.
Proof. unfold all_reached. cbn. forall_list ltac:(by vm_compute). Qed.

Lemma ex_pair_reached : all_reached ex_pair.
Proof. unfold all_reached. cbn. forall_list ltac:(by vm_compute). Qed.

Lemma GCN_forward_shape_witness :
  exists out,
    outcome (GCN_forward ex_layer ex_feature ex_path) = inr out /\
    length out = 3 /\ rectangular 2 out.
Proof.
  apply (GCN_forward_shape ex_layer ex_feature ex_path).
  - apply ex_path_wf.
  - reflexivity.
  - forall_list ltac:(reflexivity).
  - by split.
  - apply F_relu_keeps_shape.
Defined.

Lemma Classifier_forward_shape_witness :
  exists logits,
    outcome (Classifier_forward ex_model ex_batch) = inr logits /\
    length logits = 2 /\ rectangular 2 logits.
Proof.
  apply (@Classifier_forward_shape Q_scalar 2 2
           [[1%Q]; [(-1 # 1)%Q]] [0%Q; 1%Q]
           [[1%Q; 2%Q]; [0%Q; 1%Q]] [0%Q; 0%Q]
           [[1%Q; 0%Q]; [1%Q; 1%Q]] [1%Q; 0%Q] ex_batch);
    try reflexivity.
  - apply ex_batch_wf.
  - split; [reflexivity|]. cbn. forall_list ltac:(lia).
Defined.

Lemma GCN_forward_wrong_rows_witness :
  outcome (GCN_forward ex_layer [[1%Q]] ex_path)
    = inl (DGLError "Expect number of features to match number of nodes") /\
  final (GCN_forward ex_layer [[1%Q]] ex_path) = ex_path.
Proof.
  destruct (GCN_forward_wrong_rows ex_layer [[1%Q]] ex_path) as (Ho & Hf & _).
  - cbn. lia.
  - by split.
Defined.

Lemma GCN_forward_wrong_width_witness :
  outcome (GCN_forward ex_layer ex_wide_feature ex_path)
    = inl (RuntimeError "size mismatch") /\
  ndata (final (GCN_forward ex_layer ex_wide_feature ex_path))
    = <[ "h" := mean_of_received ex_path ex_wide_feature ]> ∅.
Proof.
  destruct (GCN_forward_wrong_width ex_layer ex_wide_feature ex_path 2)
    as (Ho & Hf & _).
  - apply ex_path_wf.
  - reflexivity.
  - cbn. lia.
  - forall_list ltac:(reflexivity).
  - cbn. lia.
  - by split.
Defined.

Lemma Classifier_in_dim_must_be_1_witness :
  outcome (Classifier_forward ex_model_in2 ex_path)
    = inl (RuntimeError "size mismatch") /\
  map fst (log (Classifier_forward ex_model_in2 ex_path))
    = [c_in_degrees; c_set_ndata "h"; c_update_all; c_apply_nodes].
Proof.
  destruct (@Classifier_in_dim_must_be_1 Q_scalar 2 2 2
              [[1%Q; 1%Q]; [(-1 # 1)%Q; 0%Q]] [0%Q; 1%Q]
              [[1%Q; 2%Q]; [0%Q; 1%Q]] [0%Q; 0%Q]
              [[1%Q; 0%Q]; [1%Q; 1%Q]] [1%Q; 0%Q] ex_path)
    as (Ho & _ & Hl).
  - lia.
  - apply ex_path_wf.
  - cbn. lia.
  - by split.
Defined.

Lemma GCN_forward_local_witness :
  exists o1 o2,
    outcome (GCN_forward ex_layer ex_feature ex_path) = inr o1 /\
    outcome (GCN_forward ex_layer ex_other_feature ex_path) = inr o2 /\
    o1 !! 0 = o2 !! 0.
Proof.
  eexists. eexists.
  split; [vm_compute; reflexivity|]. split; [vm_compute; reflexivity|].
  apply (GCN_forward_local ex_layer ex_path ex_feature ex_other_feature _ _ 0).
  - reflexivity.
  - by vm_compute.
  - unfold in_sources. cbn. forall_list ltac:(reflexivity).
  - vm_compute; reflexivity.
  - vm_compute; reflexivity.
Defined.

Lemma Classifier_forward_repeatable_witness :
  final (Classifier_forward ex_model (final (Classifier_forward ex_model ex_tagged)))
    = final (Classifier_forward ex_model ex_tagged).
Proof.
  eapply (proj2 (proj2 (Classifier_forward_repeatable ex_model ex_tagged))).
  vm_compute; reflexivity.
Defined.

Lemma batch_forward_commutes_witness :
  exists l1 l2,
    outcome (Classifier_forward ex_model ex_path) = inr l1 /\
    outcome (Classifier_forward ex_model ex_pair) = inr l2 /\
    outcome (Classifier_forward ex_model ex_batch) = inr (concat [l1; l2]).
Proof.
  eexists. eexists.
  split; [vm_compute; reflexivity|]. split; [vm_compute; reflexivity|].
  apply (batch_forward_commutes ex_model [ex_path; ex_pair] ex_batch).
  - forall_list ltac:(reflexivity).
  - apply Forall_cons. split; [by (split; [apply ex_path_wf|split; [apply ex_path_reached|]])|].
    apply Forall_cons. split; [by (split; [apply ex_pair_wf|split; [apply ex_pair_reached|]])|].
    apply Forall_nil_2.
  - vm_compute; reflexivity.
  - apply Forall2_cons. split; [vm_compute; reflexivity|].
    apply Forall2_cons. split; [vm_compute; reflexivity|]. constructor.
Defined.



